(** * Disk store of py-key-value: SQLite-backed key-value storage

    A shallow embedding of [key_value/aio/stores/disk/store.py] and
    [key_value/aio/stores/disk/multi_store.py], and the properties of the
    stores proved over it.

    Modelling conventions.
    - A [sqlite3.Connection] is a handle on a database file; the [kv] table
      of that file is a list of rows in physical (rowid) order.  The
      [_sqlite_*] helpers are state-passing functions on that table; the
      store classes reach the table through the connection, in a small
      state-and-exception monad over the world (file system, database files,
      connections).
    - [time.time()] is an argument [now] of the function that reads the
      clock.  Timestamps ([float] in Python, [REAL] in SQLite) are integers
      counting ticks of the clock; the code uses their order, their sum and
      their truth value, and makes a [datetime] of them, which the platform
      does or refuses.
    - Python [int] is [Z]; [str] is [string], character by character, the
      NUL character included.
    - Failures of the operating system or of SQLite itself (I/O errors,
      integer overflow of [SUM], exhaustion of the 64-bit rowid space) are
      outside the model. *)

From Stdlib Require Import Strings.Ascii.
From stdpp Require Import gmap strings list sorting.
From Equations Require Import Equations.

Local Open Scope Z_scope.

(** ** The [kv] table *)

Definition epoch := Z.

(** [CREATE TABLE IF NOT EXISTS kv (key TEXT PRIMARY KEY, value TEXT NOT NULL,
    expire_at REAL)], with the implicit [rowid] column of an ordinary SQLite
    table. *)
Module kv.
Record row := Row {
  rowid : Z;
  key : string;
  value : string;
  expire_at : option epoch
}.

#[global] Instance row_eq_dec : EqDecision row.
Proof. solve_decision. Defined.
End kv.

Abbreviation table := (list kv.row).

(** *** SQL expressions and statements used by the store *)

(** [LENGTH(X)] of a text value: SQLite counts the characters that come
    before the first NUL character, so a text without NUL counts in full.
    Python's [sqlite3] stores a [str] with all its characters, NUL
    included. *)
Fixpoint LENGTH (s : string) : Z :=
  match s with
  | EmptyString => 0
  | String c s => if Ascii.eqb c Ascii.zero then 0 else 1 + LENGTH s
  end.

(** [SELECT COUNT( * ) FROM kv] *)
Definition COUNT (t : table) : Z := Z.of_nat (length t).

(** [SELECT COALESCE(SUM(LENGTH(key) + LENGTH(value)), 0) FROM kv] *)
Definition SUM_LENGTH (t : table) : Z :=
  foldr (λ r acc, LENGTH (kv.key r) + LENGTH (kv.value r) + acc) 0 t.

(** [WHERE expire_at IS NOT NULL AND expire_at < ?] *)
Definition expired (now : epoch) (r : kv.row) : Prop :=
  match kv.expire_at r with
  | Some e => e < now
  | None => False
  end.

#[global] Instance expired_dec now r : Decision (expired now r).
Proof. unfold expired. destruct (kv.expire_at r); apply _. Defined.

(** [DELETE FROM kv WHERE <cond>]: the rows satisfying the condition go, the
    others keep their order. *)
Definition DELETE_WHERE (cond : kv.row → Prop) `{!∀ r, Decision (cond r)}
    (t : table) : table :=
  filter (λ r, ¬ cond r) t.

(** [LIMIT n]: a negative limit is no limit. *)
Definition LIMIT {A} (n : Z) (l : list A) : list A :=
  if decide (n < 0) then l else take (Z.to_nat n) l.

(** [SELECT rowid FROM kv ORDER BY rowid ASC LIMIT ?] *)
Definition SELECT_rowid_ORDER_BY_rowid_LIMIT (n : Z) (t : table) : list Z :=
  LIMIT n (merge_sort Z.le (kv.rowid <$> t)).

(** The rowid SQLite gives to an inserted row: one more than the largest
    rowid in the table, 1 in an empty table. *)
Definition max_rowid (t : table) : option Z :=
  foldr (λ r m, Some (from_option (Z.max (kv.rowid r)) (kv.rowid r) m)) None t.

Definition new_rowid (t : table) : Z :=
  from_option (λ m, m + 1) 1 (max_rowid t).

(** [INSERT OR REPLACE INTO kv (key, value, expire_at) VALUES (?, ?, ?)]:
    the row that conflicts on the primary key is deleted, and the new row is
    inserted under a new rowid, hence last in rowid order. *)
Definition INSERT_OR_REPLACE (key value : string) (expire_at : option epoch)
    (t : table) : table :=
  DELETE_WHERE (λ r, kv.key r = key) t
    ++ [kv.Row (new_rowid t) key value expire_at].

(** *** The helpers of [store.py] *)

(** [_sqlite_get_with_expire]: [fetchone()] is the first selected row. *)
Definition _sqlite_get_with_expire (conn : table) (key : string)
    : option string * option epoch :=
  match head (filter (λ r, kv.key r = key) conn) with
  | None => (None, None)
  | Some row => (Some (kv.value row), kv.expire_at row)
  end.

(** [_sqlite_set]; [now] is what [time.time()] returns. *)
Definition _sqlite_set (now : epoch) (conn : table) (key value : string)
    (expire : option epoch) : bool * table :=
  let expire_at :=
    match expire with
    | Some expire => Some (now + expire)
    | None => None
    end in
  (true, INSERT_OR_REPLACE key value expire_at conn).

(** [_sqlite_delete]: [cursor.rowcount] is the number of rows deleted. *)
Definition _sqlite_delete (conn : table) (key : string) : bool * table :=
  let conn' := DELETE_WHERE (λ r, kv.key r = key) conn in
  (bool_decide (COUNT conn - COUNT conn' > 0), conn').

(** [_sqlite_clear] *)
Definition _sqlite_clear (conn : table) : Z * table :=
  (COUNT conn, []).

(** One iteration of the [while] loop of [_sqlite_evict], after the test
    [total_rows == 0]: lines 141 to 146. *)
Definition trim_batch (conn : table) : table :=
  let total_rows := COUNT conn in
  let to_delete := Z.max 1 (total_rows `div` 10) in
  DELETE_WHERE
    (λ r, kv.rowid r ∈ SELECT_rowid_ORDER_BY_rowid_LIMIT to_delete conn) conn.

(** A batch always takes the row of least rowid with it, so the table gets
    shorter; this is what makes the loop below terminate. *)
Lemma trim_batch_length conn :
  COUNT conn ≠ 0 → (length (trim_batch conn) < length conn)%nat.
Proof.
  unfold COUNT, trim_batch, DELETE_WHERE, SELECT_rowid_ORDER_BY_rowid_LIMIT.
  intros Hrows.
  set (n := Z.max 1 _). set (ids := merge_sort _ _).
  assert (Hn1 : 1 ≤ n) by (unfold n; lia).
  assert (Hperm : ids ≡ₚ kv.rowid <$> conn) by apply merge_sort_Permutation.
  destruct ids as [|i ids'] eqn:Hids.
  { apply Permutation_nil_l in Hperm. destruct conn; simplify_eq/=. }
  assert (Hi : i ∈ LIMIT n (i :: ids')).
  { unfold LIMIT. case_decide; [set_solver|].
    destruct (Z.to_nat n) eqn:Hn; [lia|]. set_solver. }
  assert (i ∈ kv.rowid <$> conn) as (r & -> & Hr)%list_elem_of_fmap.
  { rewrite <-Hperm. set_solver. }
  clear -Hi Hr. revert Hi. generalize (LIMIT n (kv.rowid r :: ids')).
  intros sel Hsel. induction Hr as [r t|r r' t Hr IH].
  - rewrite filter_cons_False by (intros Hn; by apply Hn).
    pose proof (length_filter (λ r0, ¬ kv.rowid r0 ∈ sel) t). simpl. lia.
  - specialize (IH Hsel). rewrite filter_cons. case_decide; simpl; lia.
Qed.

(** The [while total_size > max_size] loop of [_sqlite_evict]: lines 137 to
    147.  [total_size] is the loop variable of the same name. *)
Equations? trim_loop (max_size : Z) (conn : table) (total_size : Z) : table
    by wf (length conn) lt :=
  trim_loop max_size conn total_size with decide (total_size > max_size) := {
    | right _ => conn
    | left _ with decide (COUNT conn = 0) := {
      | left _ => conn
      | right Hrows =>
          trim_loop max_size (trim_batch conn) (SUM_LENGTH (trim_batch conn)) } }.
Proof. by apply trim_batch_length. Qed.

(** [_sqlite_evict]; [now] is what [time.time()] returns. *)
Definition _sqlite_evict (now : epoch) (conn : table) (max_size : Z) : table :=
  let conn := DELETE_WHERE (expired now) conn in
  let total_size := SUM_LENGTH conn in
  trim_loop max_size conn total_size.

(** ** The world: directories, database files, connections *)

(** A [pathlib.Path], as the list of its components. *)
Definition Path := list string.

(** A [sqlite3.Connection] object: the database file it is open on, and
    whether [close()] has been called on it. *)
Record Connection := {
  db_path : Path;
  is_open : bool
}.

(** Connection objects are identified by their position in the list of all
    connections ever made. *)
Abbreviation conn_id := nat.

Record World := {
  dirs : gset Path;
  files : gmap Path table;
  conns : list Connection
}.

Definition set_dirs (f : gset Path → gset Path) (w : World) : World :=
  {| dirs := f (dirs w); files := files w; conns := conns w |}.
Definition set_files (f : gmap Path table → gmap Path table) (w : World) : World :=
  {| dirs := dirs w; files := f (files w); conns := conns w |}.
Definition set_conns (f : list Connection → list Connection) (w : World) : World :=
  {| dirs := dirs w; files := files w; conns := f (conns w) |}.

(** The [kv] table of a database file; a file that is not there yet has no
    rows. *)
Definition kv_of (w : World) (p : Path) : table := default [] (files w !! p).

(** *** Exceptions and the monad of store operations *)

Inductive exn :=
  | ValueError (msg : string)
  | KeyError (key : string)
  | AttributeError (name : string)
  | ProgrammingError
  | DeserializationError.

Inductive outcome (A : Type) :=
  | Ok (a : A)
  | Raise (e : exn).
Arguments Ok {A} a.
Arguments Raise {A} e.

Definition M (A : Type) : Type := World → outcome A * World.

#[global] Instance M_ret : MRet M := λ A a w, (Ok a, w).
#[global] Instance M_bind : MBind M := λ A B f m w,
  match m w with
  | (Ok a, w') => f a w'
  | (Raise e, w') => (Raise e, w')
  end.

Definition raise {A} (e : exn) : M A := λ w, (Raise e, w).
Definition lift {A} (o : outcome A) : M A := λ w, (o, w).
Definition gets {A} (f : World → A) : M A := λ w, (Ok (f w), w).
Definition modify (f : World → World) : M unit := λ w, (Ok tt, f w).

(** A statement run through a connection: [sqlite3] raises
    [ProgrammingError] on a closed connection. *)
Definition execute {A} (conn : conn_id) (f : table → A * table) : M A := λ w,
  match conns w !! conn with
  | Some {| db_path := p; is_open := true |} =>
      let '(a, t) := f (kv_of w p) in (Ok a, set_files <[p := t]> w)
  | _ => (Raise ProgrammingError, w)
  end.

(** A query reads the table and leaves it as it is. *)
Definition query {A} (conn : conn_id) (f : table → A) : M A := λ w,
  match conns w !! conn with
  | Some {| db_path := p; is_open := true |} => (Ok (f (kv_of w p)), w)
  | _ => (Raise ProgrammingError, w)
  end.

(** [Path.exists()] *)
Definition Path_exists (p : Path) : M bool :=
  gets (λ w, bool_decide (p ∈ dirs w ∨ is_Some (files w !! p))).

(** The directory itself and the directories above it, up to the root. *)
Definition Path_lineage (p : Path) : list Path :=
  (λ n, take n p) <$> seq 0 (S (length p)).

(** The world once the directory [p] and those above it are made. *)
Definition with_directory (p : Path) (w : World) : World :=
  set_dirs (λ d, d ∪ list_to_set (Path_lineage p)) w.

(** [Path.mkdir(parents=True, exist_ok=True)] *)
Definition Path_mkdir_parents (p : Path) : M unit :=
  modify (with_directory p).

Definition _DB_FILENAME : string := "store.db".

(** The world once a new connection is open on the database file [p]:
    [sqlite3.connect] makes the file when it is not there, and
    [CREATE TABLE IF NOT EXISTS] leaves an existing table alone. *)
Definition with_connection (p : Path) (w : World) : World :=
  set_conns (λ cs, cs ++ [{| db_path := p; is_open := true |}])
    (set_files (λ fs, <[p := default [] (fs !! p)]> fs) w).

(** [_create_connection]: the new connection object is the last one made. *)
Definition _create_connection (db_path : Path) : M conn_id := λ w,
  let conn := length (conns w) in
  (Ok conn, with_connection db_path w).

(** [close()] on a connection object; on a closed connection it does
    nothing. *)
Definition close_connection (c : Connection) : Connection :=
  {| db_path := db_path c; is_open := false |}.

(** [_sqlite_close] *)
Definition _sqlite_close (conn : conn_id) : M unit :=
  modify (set_conns (alter close_connection conn)).

(** ** Collaborators of the stores *)

(** A [datetime] in UTC, kept as the timestamp of its instant. *)
Definition datetime := epoch.

(** What the stores use of Python's [pathlib] and [datetime] and of
    [pathvalidate]. *)
Class Platform := {
  (** [pathvalidate.sanitize_filename] *)
  sanitize_filename : string → string;
  (** [Path(s)] for a string [s] *)
  Path_of_str : string → Path;
  (** [str(p)] *)
  str_of_Path : Path → string;
  (** [p.resolve()] *)
  Path_resolve : Path → Path;
  (** [Path.cwd()] *)
  Path_cwd : Path;
  (** [datetime.fromtimestamp(t, tz=timezone.utc)]: the [datetime] of the
      timestamp, or the exception raised for a timestamp that no [datetime]
      represents *)
  fromtimestamp : epoch → outcome datetime
}.

(** [p / s] *)
Definition Path_div `{Platform} (p : Path) (s : string) : Path :=
  p ++ Path_of_str s.

(** Modelled from the spec: [ManagedEntry] of [key_value.shared.managed_entry]
    is not among the sources.  "[entry] carries value payload, creation time,
    optional expiration time, and a version tag"; [ttl] is what the property
    of that name gives when the store reads it. *)
Record ManagedEntry := {
  payload : string;
  created_at : option datetime;
  expires_at : option datetime;
  ttl : option epoch
}.

Definition set_expires_at (e : option datetime) (m : ManagedEntry) : ManagedEntry :=
  {| payload := payload m; created_at := created_at m;
     expires_at := e; ttl := ttl m |}.

(** Modelled from the spec: the serialization adapter of
    [key_value.shared.serialization] is not among the sources.
    "[serialize(entry) → text], [deserialize(text) → entry]". *)
Record SerializationAdapter := {
  load_json : string → outcome ManagedEntry;
  dump_json : ManagedEntry → string → string → string
}.

(** Modelled from the spec: [compound_key] of [key_value.shared.compound] is
    not among the sources.  "Produces a combined key as
    [collection + separator + key]", the key column "holds the combined
    [collection::key] string". *)
Definition compound_key (collection key : string) : string :=
  collection +:+ "::" +:+ key.

(** Python's truth value of a [float | None]. *)
Definition truthy (x : option epoch) : bool :=
  match x with
  | Some e => bool_decide (e ≠ 0)
  | None => false
  end.

(** ** [DiskStore]: one database for all collections *)

Module DiskStore.

(** The callback that [_setup] registers:
    [lambda: _sqlite_close(conn=self._conn)]. *)
Inductive callback := close_own_connection.

(** The attributes of a store object.  [_conn] is absent when [__init__]
    assigned none. *)
Record t := {
  _conn : option conn_id;
  _max_size : option Z;
  _auto_create : bool;
  _client_provided_by_user : bool;
  _serialization_adapter : SerializationAdapter;
  default_collection : option string;
  _exit_stack : list callback
}.

(** The [directory] argument: [Path | str]. *)
Inductive directory_arg :=
  | dir_str (s : string)
  | dir_Path (p : Path).

Section methods.
Context `{Platform}.

(** [Path(directory)] *)
Definition to_Path (directory : directory_arg) : Path :=
  match directory with
  | dir_str s => Path_of_str s
  | dir_Path p => p
  end.

(** The truth value of the [directory] argument: a string is true when
    it is not empty, a [Path] object always. *)
Definition directory_truthy (directory : directory_arg) : bool :=
  match directory with
  | dir_str s => bool_decide (s ≠ "")
  | dir_Path _ => true
  end.

(** [DiskStore.__init__]; [adapter] is the serialization adapter that the
    base class installs.  A connection object is always true. *)
Definition __init__ (adapter : SerializationAdapter)
    (connection : option conn_id) (directory : option directory_arg)
    (max_size : option Z) (default_collection : option string)
    (auto_create : bool) : M t :=
  if bool_decide (is_Some connection ∧ is_Some directory) then
    raise (ValueError "Provide only one of connection or directory")
  else if bool_decide (connection = None ∧ directory = None) then
    raise (ValueError "Either connection or directory must be provided")
  else
    let client_provided := bool_decide (is_Some connection) in
    conn ←
      match connection, directory with
      | Some connection, _ => mret (Some connection)
      | None, Some directory =>
          if directory_truthy directory then
            let directory := to_Path directory in
            ex ← Path_exists directory;
            (if negb ex then
               if negb auto_create then
                 raise (ValueError ("Directory '" +:+ str_of_Path directory
                   +:+ "' does not exist. Either create the directory manually or set auto_create=True."))
               else Path_mkdir_parents directory
             else mret tt) ;;
            c ← _create_connection (Path_div directory _DB_FILENAME);
            mret (Some c)
          else mret None
      | None, None => mret None
      end;
    mret {| _conn := conn;
            _max_size := max_size;
            _auto_create := auto_create;
            _client_provided_by_user := client_provided;
            _serialization_adapter := adapter;
            default_collection := default_collection;
            _exit_stack := [] |}.

(** [self._conn] *)
Definition get_conn (self : t) : M conn_id :=
  match _conn self with
  | Some c => mret c
  | None => raise (AttributeError "_conn")
  end.

(** [DiskStore._setup]: "Register connection cleanup if we own the
    connection." *)
Definition _setup (self : t) : M t :=
  if negb (_client_provided_by_user self) then
    mret {| _conn := _conn self;
            _max_size := _max_size self;
            _auto_create := _auto_create self;
            _client_provided_by_user := _client_provided_by_user self;
            _serialization_adapter := _serialization_adapter self;
            default_collection := default_collection self;
            _exit_stack := close_own_connection :: _exit_stack self |}
  else mret self.

Definition run_callback (self : t) (cb : callback) : M unit :=
  match cb with
  | close_own_connection => conn ← get_conn self; _sqlite_close conn
  end.

(** Modelled from the spec: the base class [BaseContextManagerStore] is
    not among the sources.  "A [setup()] hook invoked once before first
    use (used to register a close callback)"; teardown runs the
    registered callbacks, last registered first. *)
Definition teardown (self : t) : M unit :=
  foldr (λ cb k, run_callback self cb ;; k) (mret tt) (_exit_stack self).

(** [DiskStore.__del__] *)
Definition __del__ (self : t) : M unit :=
  if negb (_client_provided_by_user self) && bool_decide (is_Some (_conn self))
  then conn ← get_conn self; _sqlite_close conn
  else mret tt.

(** [DiskStore._get_managed_entry]: a value that is not a [str] is only
    the [None] of a missing row, the column being text. *)
Definition _get_managed_entry (self : t) (key collection : string)
    : M (option ManagedEntry) :=
  let combo_key := compound_key collection key in
  conn ← get_conn self;
  '(managed_entry_str, expire_epoch) ←
    query conn (λ db, _sqlite_get_with_expire db combo_key);
  match managed_entry_str with
  | None => mret None
  | Some managed_entry_str =>
      managed_entry ←
        lift (load_json (_serialization_adapter self) managed_entry_str);
      match expire_epoch with
      | Some t =>
          if truthy (Some t) then
            expires_at ← lift (fromtimestamp t);
            mret (Some (set_expires_at (Some expires_at) managed_entry))
          else mret (Some managed_entry)
      | None => mret (Some managed_entry)
      end
  end.

(** [DiskStore._put_managed_entry]; [now] and [now'] are what
    [time.time()] returns in [_sqlite_set] and in [_sqlite_evict]. *)
Definition _put_managed_entry (now now' : epoch) (self : t)
    (key collection : string) (managed_entry : ManagedEntry) : M unit :=
  let combo_key := compound_key collection key in
  conn ← get_conn self;
  execute conn (λ db,
    _sqlite_set now db combo_key
      (dump_json (_serialization_adapter self) managed_entry key collection)
      (ttl managed_entry)) ;;
  match _max_size self with
  | Some max_size =>
      if bool_decide (max_size > 0) then
        conn ← get_conn self;
        execute conn (λ db, (tt, _sqlite_evict now' db max_size))
      else mret tt
  | None => mret tt
  end.

(** [DiskStore._delete_managed_entry] *)
Definition _delete_managed_entry (self : t) (key collection : string)
    : M bool :=
  let combo_key := compound_key collection key in
  conn ← get_conn self;
  execute conn (λ db, _sqlite_delete db combo_key).

End methods.
End DiskStore.

(** ** [MultiDiskStore]: one database per collection *)

(** [_sanitize_collection_for_filesystem] *)
Definition _sanitize_collection_for_filesystem `{Platform} (collection : string)
    : string :=
  sanitize_filename collection.

Module MultiDiskStore.

(** [ConnectionFactory = Callable[[str], sqlite3.Connection]] *)
Definition ConnectionFactory := string → M conn_id.

(** What [self._connection_factory] holds: the caller's factory, or the
    closure [default_connection_factory], which reads [self] when called. *)
Inductive factory :=
  | caller_factory (f : ConnectionFactory)
  | default_connection_factory.

(** The callback that [_setup] registers: [self._sync_close]. *)
Inductive callback := sync_close.

Record t := {
  _conn : gmap string conn_id;
  _connection_factory : factory;
  _base_directory : Path;
  _max_size : option Z;
  _auto_create : bool;
  _serialization_adapter : SerializationAdapter;
  default_collection : option string;
  _exit_stack : list callback;
  (** the collections the base class has set up *)
  _setup_collection_complete : gset string
}.

Definition set_conn (f : gmap string conn_id → gmap string conn_id) (self : t) : t :=
  {| _conn := f (_conn self);
     _connection_factory := _connection_factory self;
     _base_directory := _base_directory self;
     _max_size := _max_size self;
     _auto_create := _auto_create self;
     _serialization_adapter := _serialization_adapter self;
     default_collection := default_collection self;
     _exit_stack := _exit_stack self;
     _setup_collection_complete := _setup_collection_complete self |}.

Definition set_exit_stack (f : list callback → list callback) (self : t) : t :=
  {| _conn := _conn self;
     _connection_factory := _connection_factory self;
     _base_directory := _base_directory self;
     _max_size := _max_size self;
     _auto_create := _auto_create self;
     _serialization_adapter := _serialization_adapter self;
     default_collection := default_collection self;
     _exit_stack := f (_exit_stack self);
     _setup_collection_complete := _setup_collection_complete self |}.

Definition set_setup_collection_complete (f : gset string → gset string)
    (self : t) : t :=
  {| _conn := _conn self;
     _connection_factory := _connection_factory self;
     _base_directory := _base_directory self;
     _max_size := _max_size self;
     _auto_create := _auto_create self;
     _serialization_adapter := _serialization_adapter self;
     default_collection := default_collection self;
     _exit_stack := _exit_stack self;
     _setup_collection_complete := f (_setup_collection_complete self) |}.

Section methods.
Context `{Platform}.
(** [BasicSerializationAdapter()] of [key_value.shared.serialization] *)
Context (BasicSerializationAdapter : SerializationAdapter).

(** [MultiDiskStore.__init__] *)
Definition __init__ (connection_factory : option ConnectionFactory)
    (base_directory : option Path) (max_size : option Z)
    (default_collection : option string) (auto_create : bool) : M t :=
  if bool_decide (connection_factory = None ∧ base_directory = None) then
    raise (ValueError "Either connection_factory or base_directory must be provided")
  else
    let base_directory := default Path_cwd base_directory in
    mret {| _conn := ∅;
            _connection_factory :=
              match connection_factory with
              | Some f => caller_factory f
              | None => default_connection_factory
              end;
            _base_directory := Path_resolve base_directory;
            _max_size := max_size;
            _auto_create := auto_create;
            _serialization_adapter := BasicSerializationAdapter;
            default_collection := default_collection;
            _exit_stack := [];
            _setup_collection_complete := ∅ |}.

(** The body of the closure [default_connection_factory]. *)
Definition default_connection_factory_body (self : t) (collection : string)
    : M conn_id :=
  let sanitized_collection := _sanitize_collection_for_filesystem collection in
  let cache_directory := Path_div (_base_directory self) sanitized_collection in
  ex ← Path_exists cache_directory;
  (if negb ex then
     if negb (_auto_create self) then
       raise (ValueError ("Directory '" +:+ str_of_Path cache_directory
         +:+ "' does not exist. Either create the directory manually or set auto_create=True."))
     else Path_mkdir_parents cache_directory
   else mret tt) ;;
  _create_connection (Path_div cache_directory _DB_FILENAME).

(** [self._connection_factory(collection)] *)
Definition call_connection_factory (self : t) (collection : string)
    : M conn_id :=
  match _connection_factory self with
  | caller_factory f => f collection
  | default_connection_factory => default_connection_factory_body self collection
  end.

(** [MultiDiskStore._setup]: "Register connection cleanup." *)
Definition _setup (self : t) : M t :=
  mret (set_exit_stack (cons sync_close) self).

(** [MultiDiskStore._setup_collection] *)
Definition _setup_collection (self : t) (collection : string) : M t :=
  conn ← call_connection_factory self collection;
  mret (set_conn <[collection := conn]> self).

(** [self._conn[collection]] *)
Definition get_conn (self : t) (collection : string) : M conn_id :=
  match _conn self !! collection with
  | Some c => mret c
  | None => raise (KeyError collection)
  end.

(** [MultiDiskStore._get_managed_entry] *)
Definition _get_managed_entry (self : t) (key collection : string)
    : M (option ManagedEntry) :=
  conn ← get_conn self collection;
  '(managed_entry_str, expire_epoch) ←
    query conn (λ db, _sqlite_get_with_expire db key);
  match managed_entry_str with
  | None => mret None
  | Some managed_entry_str =>
      managed_entry ←
        lift (load_json (_serialization_adapter self) managed_entry_str);
      match expire_epoch with
      | Some t =>
          if truthy (Some t) then
            expires_at ← lift (fromtimestamp t);
            mret (Some (set_expires_at (Some expires_at) managed_entry))
          else mret (Some managed_entry)
      | None => mret (Some managed_entry)
      end
  end.

(** [MultiDiskStore._put_managed_entry] *)
Definition _put_managed_entry (now now' : epoch) (self : t)
    (key collection : string) (managed_entry : ManagedEntry) : M unit :=
  conn ← get_conn self collection;
  execute conn (λ db,
    _sqlite_set now db key
      (dump_json (_serialization_adapter self) managed_entry key collection)
      (ttl managed_entry)) ;;
  match _max_size self with
  | Some max_size =>
      if bool_decide (max_size > 0) then
        conn ← get_conn self collection;
        execute conn (λ db, (tt, _sqlite_evict now' db max_size))
      else mret tt
  | None => mret tt
  end.

(** [MultiDiskStore._delete_managed_entry] *)
Definition _delete_managed_entry (self : t) (key collection : string)
    : M bool :=
  conn ← get_conn self collection;
  execute conn (λ db, _sqlite_delete db key).

(** [MultiDiskStore._sync_close]: closes every connection of the
    dictionary. *)
Definition _sync_close (self : t) : M unit :=
  foldr (λ conn k, _sqlite_close conn ;; k) (mret tt)
    ((map_to_list (_conn self)).*2).

(** [MultiDiskStore.__del__] *)
Definition __del__ (self : t) : M unit := _sync_close self.

Definition run_callback (self : t) (cb : callback) : M unit :=
  match cb with
  | sync_close => _sync_close self
  end.

(** Modelled from the spec: the base class is not among the sources.
    Teardown runs the callbacks registered by [_setup], last registered
    first. *)
Definition teardown (self : t) : M unit :=
  foldr (λ cb k, run_callback self cb ;; k) (mret tt) (_exit_stack self).

(** Modelled from the spec: [setup_collection] of the base class is not
    among the sources.  "A [setup_collection(collection)] hook invoked
    the first time a given collection is touched (used to
    create/register that collection's handle)". *)
Definition setup_collection (self : t) (collection : string) : M t :=
  if bool_decide (collection ∈ _setup_collection_complete self) then
    mret self
  else
    self ← _setup_collection self collection;
    mret (set_setup_collection_complete (union {[collection]}) self).

End methods.
End MultiDiskStore.

(** ** Invariants and the eviction pass as the specification words it *)

(** The invariant of a [kv] table: the rows lie in rowid order, which is the
    order of their insertion, and [key] is a primary key. *)
Record kv_wf (t : table) : Prop := {
  kv_rowid_order : StronglySorted Z.lt (kv.rowid <$> t);
  kv_key_unique : NoDup (kv.key <$> t)
}.

(** The stored rows without the hidden rowid column. *)
Definition stored_rows (t : table) : list (string * string * option epoch) :=
  (λ r, (kv.key r, kv.value r, kv.expire_at r)) <$> t.

(** Total approximate size: "sum over all remaining rows of
    length(key) + length(value)", the "sum of character lengths of all
    stored keys and values". *)
Definition approximate_size (t : table) : Z :=
  foldr Z.add 0
    ((λ r, Z.of_nat (String.length (kv.key r))
           + Z.of_nat (String.length (kv.value r))) <$> t).

(** The text up to its first NUL character, all of it when it holds none. *)
Fixpoint up_to_NUL (s : string) : string :=
  match s with
  | EmptyString => EmptyString
  | String c s =>
      if Ascii.eqb c Ascii.zero then EmptyString else String c (up_to_NUL s)
  end.

(** The size of a table when each key and each value counts up to its first
    NUL character. *)
Definition size_up_to_NUL (t : table) : Z :=
  foldr Z.add 0
    ((λ r, Z.of_nat (String.length (up_to_NUL (kv.key r)))
           + Z.of_nat (String.length (up_to_NUL (kv.value r)))) <$> t).

Module Spec.

(** "[expire_at] is set and less than the current time" *)
Definition past (now : epoch) (r : kv.row) : Prop :=
  ∃ e, kv.expire_at r = Some e ∧ e < now.

#[global] Instance past_dec now r : Decision (past now r).
Proof.
  unfold past. destruct (kv.expire_at r) as [e|].
  - destruct (decide (e < now)); [left; eauto|right].
    intros (e' & [= <-] & ?); lia.
  - right. intros (e' & [=] & ?).
Defined.

(** "Delete all rows whose [expire_at] is set and less than the current
    time." *)
Definition expire_sweep (now : epoch) (t : table) : table :=
  filter (λ r, ¬ past now r) t.

(** "max(1, floor(row_count / 10))" *)
Definition batch (row_count : nat) : nat := Nat.max 1 (row_count `div` 10).

(** "Delete the oldest [max(1, floor(row_count / 10))] rows, ordered by
    insertion order (physical row order)." *)
Definition delete_oldest (t : table) : table := drop (batch (length t)) t.

(** "While total size exceeds the bound and rows remain", delete the
    oldest batch; [size] is the measure of the total size. *)
Equations? proportional_trim_by (size : table → Z) (bound : Z) (t : table)
    : table by wf (length t) lt :=
  proportional_trim_by size bound t
    with decide (size t > bound ∧ t ≠ []) := {
    | left _ => proportional_trim_by size bound (delete_oldest t)
    | right _ => t }.
Proof.
  unfold delete_oldest, batch. rewrite length_drop.
  destruct t; [naive_solver|]. simpl. lia.
Qed.

(** The eviction pass: the expire sweep, then the proportional trim. *)
Definition evict_by (size : table → Z) (now : epoch) (bound : Z) (t : table)
    : table :=
  proportional_trim_by size bound (expire_sweep now t).

(** The proportional trim and the eviction pass under the total approximate
    size, the sum of character lengths. *)
Definition proportional_trim : Z → table → table :=
  proportional_trim_by approximate_size.

Definition evict : epoch → Z → table → table := evict_by approximate_size.

End Spec.

(** The loop body of [_sqlite_evict] as a step: [None] when the loop is
    left (the [while] test fails, or [break]), the next table otherwise. *)
Definition trim_step (max_size : Z) (conn : table) : option table :=
  if decide (SUM_LENGTH conn > max_size) then
    if decide (COUNT conn = 0) then None else Some (trim_batch conn)
  else None.

(** [n] iterations of the loop body, as far as the loop goes on. *)
Fixpoint trim_iter (n : nat) (max_size : Z) (conn : table) : option table :=
  match n with
  | O => Some conn
  | S n =>
      match trim_step max_size conn with
      | Some conn' => trim_iter n max_size conn'
      | None => None
      end
  end.

(** ** A concrete platform, for running the model *)

Module Posix.

(** Drops the characters that [sanitize_filename] removes; here "/" only. *)
Fixpoint strip_slashes (s : string) : string :=
  match s with
  | EmptyString => EmptyString
  | String a s =>
      if Ascii.eqb a "/"%char then strip_slashes s else String a (strip_slashes s)
  end.

(** The components of a "/"-separated path, [cur] being the component read
    so far. *)
Fixpoint components (cur : string) (s : string) : list string :=
  match s with
  | EmptyString => if String.eqb cur "" then [] else [cur]
  | String a s =>
      if Ascii.eqb a "/"%char
      then (if String.eqb cur "" then [] else [cur]) ++ components "" s
      else components (cur +:+ String a EmptyString) s
  end.

(** The timestamps, in seconds, of the first second of the year 1 and of the
    last second of the year 9999, the range of [datetime].  Outside it
    [datetime.fromtimestamp] raises: [ValueError] for a year out of range,
    which is what the platform below raises throughout; CPython has
    [OverflowError] and [OSError] for timestamps still further out. *)
Definition MIN_TIMESTAMP : Z := -62135596800.
Definition MAX_TIMESTAMP : Z := 253402300799.

#[global] Instance platform : Platform := {|
  sanitize_filename := strip_slashes;
  Path_of_str := components "";
  str_of_Path p := foldr (λ c s, "/" +:+ c +:+ s) "" p;
  Path_resolve p := p;
  Path_cwd := [];
  fromtimestamp t :=
    if bool_decide (MIN_TIMESTAMP ≤ t ≤ MAX_TIMESTAMP) then Ok t
    else Raise (ValueError "year is out of range")
|}.

(** An adapter whose text is the payload itself. *)
Definition adapter : SerializationAdapter := {|
  load_json s :=
    Ok {| payload := s; created_at := None; expires_at := None; ttl := None |};
  dump_json e _ _ := payload e
|}.

(** The world before anything is stored. *)
Definition boot : World := {| dirs := ∅; files := ∅; conns := [] |}.

(** A world with one database file, holding the table [t], and one open
    connection on it. *)
Definition db : Path := ["data"; "store.db"].

Definition world_with (t : table) : World := {|
  dirs := {[ []; ["data"] ]};
  files := {[ db := t ]};
  conns := [{| db_path := db; is_open := true |}]
|}.

(** A [DiskStore] on that connection. *)
Definition disk_store (max_size : option Z) : DiskStore.t := {|
  DiskStore._conn := Some 0%nat;
  DiskStore._max_size := max_size;
  DiskStore._auto_create := true;
  DiskStore._client_provided_by_user := false;
  DiskStore._serialization_adapter := adapter;
  DiskStore.default_collection := None;
  DiskStore._exit_stack := []
|}.

(** A [MultiDiskStore] with that connection for the collection "c". *)
Definition multi_store (max_size : option Z) : MultiDiskStore.t := {|
  MultiDiskStore._conn := {[ "c" := 0%nat ]};
  MultiDiskStore._connection_factory := MultiDiskStore.default_connection_factory;
  MultiDiskStore._base_directory := [];
  MultiDiskStore._max_size := max_size;
  MultiDiskStore._auto_create := true;
  MultiDiskStore._serialization_adapter := adapter;
  MultiDiskStore.default_collection := None;
  MultiDiskStore._exit_stack := [];
  MultiDiskStore._setup_collection_complete := {[ "c" ]}
|}.

(** A [MultiDiskStore] under the directory "base", before any collection is
    touched. *)
Definition router : MultiDiskStore.t := {|
  MultiDiskStore._conn := ∅;
  MultiDiskStore._connection_factory := MultiDiskStore.default_connection_factory;
  MultiDiskStore._base_directory := ["base"];
  MultiDiskStore._max_size := None;
  MultiDiskStore._auto_create := true;
  MultiDiskStore._serialization_adapter := adapter;
  MultiDiskStore.default_collection := None;
  MultiDiskStore._exit_stack := [];
  MultiDiskStore._setup_collection_complete := ∅
|}.

(** A world with two database files and three open connections, the first
    and the last on the same file; and a [MultiDiskStore] that holds them
    for the collections "c", "d" and "c/". *)
Definition db2 : Path := ["data2"; "store.db"].

Definition world_with2 (t t2 : table) : World := {|
  dirs := {[ []; ["data"]; ["data2"] ]};
  files := {[ db := t; db2 := t2 ]};
  conns := [{| db_path := db; is_open := true |};
            {| db_path := db2; is_open := true |};
            {| db_path := db; is_open := true |}]
|}.

Definition multi_store2 (max_size : option Z) : MultiDiskStore.t := {|
  MultiDiskStore._conn := {[ "c" := 0%nat; "d" := 1%nat; "c/" := 2%nat ]};
  MultiDiskStore._connection_factory := MultiDiskStore.default_connection_factory;
  MultiDiskStore._base_directory := [];
  MultiDiskStore._max_size := max_size;
  MultiDiskStore._auto_create := true;
  MultiDiskStore._serialization_adapter := adapter;
  MultiDiskStore.default_collection := None;
  MultiDiskStore._exit_stack := [];
  MultiDiskStore._setup_collection_complete := {[ "c"; "d"; "c/" ]}
|}.

Definition entry (text : string) (ttl : option epoch) : ManagedEntry :=
  {| payload := text; created_at := None; expires_at := None; ttl := ttl |}.

End Posix.

(** ** Notions used in the statements *)

(** Connection [conn] is open, on the database file [p]. *)
Definition open_on (w : World) (conn : conn_id) (p : Path) : Prop :=
  conns w !! conn = Some {| db_path := p; is_open := true |}.

(** Connection [conn] has been closed. *)
Definition closed (w : World) (conn : conn_id) : Prop :=
  ∃ p, conns w !! conn = Some {| db_path := p; is_open := false |}.

(** Nothing exists at path [p]. *)
Definition missing (w : World) (p : Path) : Prop :=
  (p ∉ dirs w) ∧ files w !! p = None.

(** The directory and the database file of a collection under the default
    connection factory. *)
Definition cache_directory `{Platform} (self : MultiDiskStore.t)
    (collection : string) : Path :=
  Path_div (MultiDiskStore._base_directory self)
    (_sanitize_collection_for_filesystem collection).

Definition database_of `{Platform} (self : MultiDiskStore.t)
    (collection : string) : Path :=
  Path_div (cache_directory self collection) _DB_FILENAME.

(** The tables that the helpers of [store.py] make of a new database. *)
Inductive kv_reachable : table → Prop :=
  | reachable_new : kv_reachable []
  | reachable_set now t key value expire :
      kv_reachable t → kv_reachable (_sqlite_set now t key value expire).2
  | reachable_delete t key :
      kv_reachable t → kv_reachable (_sqlite_delete t key).2
  | reachable_clear t :
      kv_reachable t → kv_reachable (_sqlite_clear t).2
  | reachable_evict now t max_size :
      kv_reachable t → kv_reachable (_sqlite_evict now t max_size).

(** What a row counts for in the size of [_sqlite_evict]:
    [LENGTH(key) + LENGTH(value)]. *)
Definition row_size (r : kv.row) : Z :=
  LENGTH (kv.key r) + LENGTH (kv.value r).

(** The text holds no NUL character. *)
Fixpoint NUL_free (s : string) : Prop :=
  match s with
  | EmptyString => True
  | String c s => c ≠ Ascii.zero ∧ NUL_free s
  end.

#[global] Instance NUL_free_dec (s : string) : Decision (NUL_free s).
Proof. induction s; simpl; apply _. Defined.

(** No key and no value of the table holds a NUL character. *)
Definition NUL_free_table (t : table) : Prop :=
  Forall (λ r, NUL_free (kv.key r) ∧ NUL_free (kv.value r)) t.

(** A row whose value holds a NUL character: the four characters "a", NUL,
    "b", "c", of which SQLite's [LENGTH] counts the first. *)
Definition NUL_row_at (rowid : Z) : kv.row :=
  kv.Row rowid "k" (String "a" (String Ascii.zero "bc")) None.

Definition NUL_row : kv.row := NUL_row_at 1.

(** The specification's [ConfigurationError] is the [ValueError] that the
    constructors and the default factory raise. *)
Definition ConfigurationError (e : exn) : Prop := ∃ msg, e = ValueError msg.

#[global] Instance kv_wf_dec (t : table) : Decision (kv_wf t).
Proof.
  destruct (decide (StronglySorted Z.lt (kv.rowid <$> t)));
    [destruct (decide (NoDup (kv.key <$> t)))|];
    [left; by split|right; by intros []..].
Defined.

(** What a read through [_get_managed_entry] makes of the value and the
    [expire_at] that [_sqlite_get_with_expire] returned: lines 249 to 257 of
    [store.py], 146 to 154 of [multi_store.py]. *)
Definition entry_of_row `{Platform} (adapter : SerializationAdapter)
    (got : option string * option epoch) : outcome (option ManagedEntry) :=
  match got with
  | (None, _) => Ok None
  | (Some managed_entry_str, expire_epoch) =>
      match load_json adapter managed_entry_str with
      | Ok managed_entry =>
          match expire_epoch with
          | Some t =>
              if truthy (Some t) then
                match fromtimestamp t with
                | Ok expires_at =>
                    Ok (Some (set_expires_at (Some expires_at) managed_entry))
                | Raise e => Raise e
                end
              else Ok (Some managed_entry)
          | None => Ok (Some managed_entry)
          end
      | Raise e => Raise e
      end
  end.

(** What [DiskStore._put_managed_entry] does to the table: the upsert, then
    the eviction when a positive bound is configured. *)
Definition put_effect (now now' : epoch) (max_size : option Z)
    (key value : string) (expire : option epoch) (db : table) : table :=
  let db := (_sqlite_set now db key value expire).2 in
  match max_size with
  | Some max_size =>
      if bool_decide (max_size > 0) then _sqlite_evict now' db max_size else db
  | None => db
  end.

(** * Properties of the stores *)

(** ** Facts on the [kv] table *)

(** ** The size that SQLite measures *)

Lemma LENGTH_up_to_NUL (s : string) :
  LENGTH s = Z.of_nat (String.length (up_to_NUL s)).
Proof.
  induction s as [|c s IH]; simpl; [done|].
  destruct (Ascii.eqb c Ascii.zero); simpl; lia.
Qed.

Lemma LENGTH_bounds (s : string) : 0 ≤ LENGTH s ≤ Z.of_nat (String.length s).
Proof.
  induction s as [|c s IH]; simpl; [done|].
  destruct (Ascii.eqb c Ascii.zero); lia.
Qed.

Lemma LENGTH_NUL_free (s : string) :
  NUL_free s → LENGTH s = Z.of_nat (String.length s).
Proof.
  induction s as [|c s IH]; simpl; [done|]. intros [Hc Hs].
  destruct (Ascii.eqb_spec c Ascii.zero); [done|]. rewrite IH by done. lia.
Qed.

Lemma SUM_LENGTH_cons r (t : table) :
  SUM_LENGTH (r :: t) = row_size r + SUM_LENGTH t.
Proof. reflexivity. Qed.

Lemma approximate_size_cons r (t : table) :
  approximate_size (r :: t)
  = Z.of_nat (String.length (kv.key r)) + Z.of_nat (String.length (kv.value r))
    + approximate_size t.
Proof. reflexivity. Qed.

Lemma size_up_to_NUL_cons r (t : table) :
  size_up_to_NUL (r :: t)
  = Z.of_nat (String.length (up_to_NUL (kv.key r)))
    + Z.of_nat (String.length (up_to_NUL (kv.value r)))
    + size_up_to_NUL t.
Proof. reflexivity. Qed.

Lemma SUM_LENGTH_size_up_to_NUL (t : table) :
  SUM_LENGTH t = size_up_to_NUL t.
Proof.
  induction t as [|r t IH]; [done|].
  rewrite SUM_LENGTH_cons, size_up_to_NUL_cons, IH. unfold row_size.
  by rewrite !LENGTH_up_to_NUL.
Qed.

(** The measured size is never more than the sum of character lengths. *)
Lemma SUM_LENGTH_bounds (t : table) : 0 ≤ SUM_LENGTH t ≤ approximate_size t.
Proof.
  induction t as [|r t IH]; [done|].
  rewrite SUM_LENGTH_cons, approximate_size_cons. unfold row_size.
  pose proof (LENGTH_bounds (kv.key r)). pose proof (LENGTH_bounds (kv.value r)).
  lia.
Qed.

(** Where no text holds a NUL character, it is that sum. *)
Lemma SUM_LENGTH_NUL_free (t : table) :
  NUL_free_table t → SUM_LENGTH t = approximate_size t.
Proof.
  induction 1 as [|r t [Hk Hv] _ IH]; [done|].
  rewrite SUM_LENGTH_cons, approximate_size_cons, IH. unfold row_size.
  by rewrite !LENGTH_NUL_free.
Qed.

Lemma NUL_free_table_sublist (t' t : table) :
  t' `sublist_of` t → NUL_free_table t → NUL_free_table t'.
Proof.
  unfold NUL_free_table. rewrite !Forall_forall. intros Hsub Ht r Hr.
  apply Ht. by eapply elem_of_sublist.
Qed.

Lemma expired_past now r : expired now r ↔ Spec.past now r.
Proof.
  unfold expired, Spec.past. destruct (kv.expire_at r) as [e|].
  - split; [eauto|]. by intros (? & [= <-] & ?).
  - split; [done|]. by intros (? & [=] & _).
Qed.

Lemma DELETE_WHERE_sublist (cond : kv.row → Prop) `{!∀ r, Decision (cond r)}
    (t : table) :
  DELETE_WHERE cond t `sublist_of` t.
Proof. apply sublist_filter. Qed.

Lemma DELETE_WHERE_expired now (t : table) :
  DELETE_WHERE (expired now) t = Spec.expire_sweep now t.
Proof.
  unfold DELETE_WHERE, Spec.expire_sweep. apply list_filter_iff.
  intros r. by rewrite expired_past.
Qed.

(** The loop of [_sqlite_evict], one test and one iteration at a time. *)
Lemma trim_loop_eq max_size (conn : table) total_size :
  trim_loop max_size conn total_size =
    if decide (total_size > max_size) then
      if decide (COUNT conn = 0) then conn
      else trim_loop max_size (trim_batch conn) (SUM_LENGTH (trim_batch conn))
    else conn.
Proof.
  simp trim_loop. destruct (decide (total_size > max_size)); simpl; [|done].
  destruct (decide (COUNT conn = 0)); simpl; [done|].
  by simp trim_loop.
Qed.

Lemma trim_loop_step max_size (conn : table) :
  trim_loop max_size conn (SUM_LENGTH conn) =
    match trim_step max_size conn with
    | Some conn' => trim_loop max_size conn' (SUM_LENGTH conn')
    | None => conn
    end.
Proof.
  rewrite trim_loop_eq. unfold trim_step.
  by repeat destruct (decide _).
Qed.

Lemma trim_step_length max_size (conn conn' : table) :
  trim_step max_size conn = Some conn' → (length conn' < length conn)%nat.
Proof.
  unfold trim_step. repeat destruct (decide _); intros [= <-].
  by apply trim_batch_length.
Qed.

(** The loop stops: after at most as many iterations as there are rows, the
    body is at a table where the loop is left, and that table is the result
    of the loop. *)
Lemma trim_loop_stops max_size (conn : table) :
  ∃ n, (n ≤ length conn)%nat
    ∧ trim_iter n max_size conn = Some (trim_loop max_size conn (SUM_LENGTH conn))
    ∧ trim_step max_size (trim_loop max_size conn (SUM_LENGTH conn)) = None.
Proof.
  remember (length conn) as m eqn:Hm. revert conn Hm.
  induction (lt_wf m) as [m _ IH]. intros conn ->.
  rewrite trim_loop_step. destruct (trim_step max_size conn) as [conn'|] eqn:Hstep.
  - pose proof (trim_step_length _ _ _ Hstep) as Hlt.
    destruct (IH _ Hlt conn' eq_refl) as (n & Hn & Hiter & Hexit).
    exists (S n). split; [lia|]. simpl. by rewrite Hstep.
  - exists 0%nat. split; [lia|]. by simpl.
Qed.

(** No run of the loop body goes on for ever. *)
Lemma trim_step_wf max_size :
  well_founded (λ conn' conn : table, trim_step max_size conn = Some conn').
Proof.
  eapply (wf_projected lt (λ t : table, length t)); [|apply lt_wf].
  intros conn' conn. apply trim_step_length.
Qed.

Lemma trim_step_None max_size (conn : table) :
  trim_step max_size conn = None →
  SUM_LENGTH conn ≤ max_size ∨ conn = [].
Proof.
  unfold trim_step, COUNT.
  repeat destruct (decide _); intros [=]; [right|left; lia].
  destruct conn; [done|simplify_eq/=; lia].
Qed.

Lemma trim_loop_sublist max_size (conn : table) total_size :
  trim_loop max_size conn total_size `sublist_of` conn.
Proof.
  remember (length conn) as m eqn:Hm. revert conn total_size Hm.
  induction (lt_wf m) as [m _ IH]. intros conn total_size ->.
  rewrite trim_loop_eq. repeat destruct (decide _); [done| |done].
  etrans; [eapply IH; [|done]; by apply trim_batch_length|].
  apply DELETE_WHERE_sublist.
Qed.

Lemma _sqlite_evict_sublist now (conn : table) max_size :
  _sqlite_evict now conn max_size `sublist_of` conn.
Proof.
  unfold _sqlite_evict. etrans; [apply trim_loop_sublist|].
  apply DELETE_WHERE_sublist.
Qed.

(** ** The table invariant *)

Lemma StronglySorted_sublist {A} (R : relation A) (l1 l2 : list A) :
  l1 `sublist_of` l2 → StronglySorted R l2 → StronglySorted R l1.
Proof.
  induction 1 as [|x l1 l2 Hsub IH|x l1 l2 Hsub IH]; intros Hs; [done|..].
  - apply StronglySorted_inv in Hs as [Hs Hall]. constructor; [by apply IH|].
    rewrite Forall_forall in Hall |- *. intros y Hy. apply Hall.
    by eapply elem_of_sublist.
  - apply StronglySorted_inv in Hs as [Hs _]. by apply IH.
Qed.

Lemma kv_wf_nil : kv_wf [].
Proof. split; simpl; constructor. Qed.

Lemma kv_wf_sublist (t' t : table) : t' `sublist_of` t → kv_wf t → kv_wf t'.
Proof.
  intros Hsub [Hord Hkey]. split.
  - eapply StronglySorted_sublist; [|done]. by apply fmap_sublist.
  - eapply sublist_NoDup; [done|]. by apply fmap_sublist.
Qed.

Lemma kv_wf_rowid_NoDup (t : table) : kv_wf t → NoDup (kv.rowid <$> t).
Proof.
  intros [Hord _]. induction Hord as [|i l Hord IH Hall]; constructor; [|done].
  intros Hi. rewrite Forall_forall in Hall. specialize (Hall _ Hi). lia.
Qed.

Lemma max_rowid_bound (t : table) r :
  r ∈ t → kv.rowid r < new_rowid t.
Proof.
  unfold new_rowid. induction 1 as [r t|r r' t Hr IH]; simpl.
  - destruct (max_rowid t); simpl; lia.
  - destruct Hr; simpl in *; lia.
Qed.

(** [INSERT OR REPLACE] keeps the invariant: the new row is the last one in
    rowid order, and the only one under its key. *)
Lemma kv_wf_INSERT_OR_REPLACE key value expire_at (t : table) :
  kv_wf t → kv_wf (INSERT_OR_REPLACE key value expire_at t).
Proof.
  intros Hwf. unfold INSERT_OR_REPLACE.
  pose proof (kv_wf_sublist _ _
    (DELETE_WHERE_sublist (λ r, kv.key r = key) t) Hwf) as [Hord Hkey].
  split; rewrite fmap_app; simpl.
  - apply StronglySorted_app_2; [|done|repeat constructor].
    intros i j (r & -> & Hr)%list_elem_of_fmap ->%list_elem_of_singleton.
    apply max_rowid_bound. eapply elem_of_sublist; [done|].
    apply DELETE_WHERE_sublist.
  - apply NoDup_app. split_and!; [done| |apply NoDup_singleton].
    intros k (r & -> & Hr)%list_elem_of_fmap Hk%list_elem_of_singleton.
    unfold DELETE_WHERE in Hr. by apply list_elem_of_filter in Hr as [Hr _].
Qed.

Lemma kv_wf__sqlite_set now (conn : table) key value expire :
  kv_wf conn → kv_wf (_sqlite_set now conn key value expire).2.
Proof. apply kv_wf_INSERT_OR_REPLACE. Qed.

Lemma kv_wf__sqlite_evict now (conn : table) max_size :
  kv_wf conn → kv_wf (_sqlite_evict now conn max_size).
Proof. apply kv_wf_sublist, _sqlite_evict_sublist. Qed.

Lemma kv_wf__sqlite_delete (conn : table) key :
  kv_wf conn → kv_wf (_sqlite_delete conn key).2.
Proof. apply kv_wf_sublist, DELETE_WHERE_sublist. Qed.

(** Every table that the store makes satisfies the invariant. *)
Lemma kv_reachable_wf (t : table) : kv_reachable t → kv_wf t.
Proof.
  induction 1;
    auto using kv_wf_nil, kv_wf__sqlite_set, kv_wf__sqlite_delete,
      kv_wf__sqlite_evict.
Qed.

(** ** The trim batch on a table in rowid order *)

Lemma StronglySorted_lt_Sorted_le (l : list Z) :
  StronglySorted Z.lt l → Sorted Z.le l.
Proof.
  induction 1 as [|i l Hs IH Hall]; constructor; [done|].
  destruct Hall; constructor. lia.
Qed.

Lemma merge_sort_rowid (t : table) :
  kv_wf t → merge_sort Z.le (kv.rowid <$> t) = kv.rowid <$> t.
Proof.
  intros [Hord _]. apply (Sorted_unique Z.le).
  - apply Sorted_merge_sort, _.
  - by apply StronglySorted_lt_Sorted_le.
  - apply merge_sort_Permutation.
Qed.

Lemma batch_to_nat (n : nat) :
  Z.to_nat (Z.max 1 (Z.of_nat n `div` 10)) = Spec.batch n.
Proof.
  unfold Spec.batch. change 10 with (Z.of_nat 10).
  rewrite <-Nat2Z.inj_div. lia.
Qed.

Lemma filter_all {A} (P : A → Prop) `{!∀ x, Decision (P x)} (l : list A) :
  Forall P l → filter P l = l.
Proof.
  induction 1 as [|x l Hx _ IH]; [done|].
  by rewrite filter_cons_True, IH.
Qed.

Lemma filter_none {A} (P : A → Prop) `{!∀ x, Decision (P x)} (l : list A) :
  Forall (λ x, ¬ P x) l → filter P l = [].
Proof.
  induction 1 as [|x l Hx _ IH]; [done|].
  by rewrite filter_cons_False.
Qed.

(** Deleting the rows whose identifier is among those of a prefix leaves
    the rest of the list, identifiers being distinct. *)
Lemma filter_not_in_prefix {A B} (f : A → B) `{!EqDecision B} (l1 l2 : list A) :
  NoDup (f <$> l1 ++ l2) →
  filter (λ x, ¬ f x ∈ f <$> l1) (l1 ++ l2) = l2.
Proof.
  rewrite fmap_app. intros (_ & Hdisj & _)%NoDup_app.
  rewrite filter_app, filter_none, filter_all; [done|..].
  - apply Forall_forall. intros x Hx Hin. apply (Hdisj _ Hin).
    by apply list_elem_of_fmap_2.
  - apply Forall_forall. intros x Hx Hn. apply Hn.
    by apply list_elem_of_fmap_2.
Qed.

Lemma trim_batch_delete_oldest (t : table) :
  kv_wf t → trim_batch t = Spec.delete_oldest t.
Proof.
  intros Hwf. unfold trim_batch, Spec.delete_oldest, DELETE_WHERE,
    SELECT_rowid_ORDER_BY_rowid_LIMIT, LIMIT, COUNT.
  rewrite decide_False by lia.
  rewrite batch_to_nat, merge_sort_rowid, <-fmap_take by done.
  set (k := Spec.batch (length t)).
  trans (filter (λ r, ¬ kv.rowid r ∈ kv.rowid <$> take k t) (take k t ++ drop k t)).
  { by rewrite take_drop. }
  apply filter_not_in_prefix. rewrite take_drop.
  by apply kv_wf_rowid_NoDup.
Qed.

Lemma kv_wf_delete_oldest (t : table) : kv_wf t → kv_wf (Spec.delete_oldest t).
Proof. apply kv_wf_sublist, sublist_drop. Qed.

Lemma proportional_trim_eq size bound (t : table) :
  Spec.proportional_trim_by size bound t =
    if decide (size t > bound ∧ t ≠ [])
    then Spec.proportional_trim_by size bound (Spec.delete_oldest t)
    else t.
Proof.
  simp proportional_trim_by.
  destruct (decide (size t > bound ∧ t ≠ [])); simpl; [|done].
  by simp proportional_trim_by.
Qed.

(** The proportional trim looks at the size of the table and of what is
    left of it after deleting oldest rows, and at nothing else. *)
Lemma proportional_trim_by_ext size1 size2 bound (t : table) :
  (∀ k, size1 (drop k t) = size2 (drop k t)) →
  Spec.proportional_trim_by size1 bound t
  = Spec.proportional_trim_by size2 bound t.
Proof.
  remember (length t) as m eqn:Hm. revert t Hm.
  induction (lt_wf m) as [m _ IH]. intros t -> Hsize.
  rewrite (proportional_trim_eq size1), (proportional_trim_eq size2).
  pose proof (Hsize 0%nat) as Hsize0. rewrite drop_0 in Hsize0. rewrite Hsize0.
  case_decide as Hgo; [|done]. destruct Hgo as [_ Hne].
  eapply IH; [|done|].
  - unfold Spec.delete_oldest, Spec.batch. rewrite length_drop.
    destruct t; [done|]. simpl. lia.
  - intros k. unfold Spec.delete_oldest. rewrite drop_drop. apply Hsize.
Qed.

(** On a table in rowid order, the loop of [_sqlite_evict] is the
    proportional trim. *)
Lemma trim_loop_proportional_trim max_size (t : table) :
  kv_wf t →
  trim_loop max_size t (SUM_LENGTH t)
  = Spec.proportional_trim_by SUM_LENGTH max_size t.
Proof.
  remember (length t) as m eqn:Hm. revert t Hm.
  induction (lt_wf m) as [m _ IH]. intros t -> Hwf.
  rewrite trim_loop_eq, proportional_trim_eq.
  unfold COUNT.
  destruct (decide (SUM_LENGTH t > max_size)) as [Hgt|Hle].
  - destruct (decide (Z.of_nat (length t) = 0)) as [Hz|Hnz].
    + rewrite decide_False; [done|]. intros [_ Hne]. by destruct t.
    + rewrite decide_True by (split; [done|]; intros ->; simpl in *; lia).
      rewrite trim_batch_delete_oldest by done.
      eapply IH; [|done|by apply kv_wf_delete_oldest].
      rewrite <-trim_batch_delete_oldest by done.
      apply trim_batch_length. unfold COUNT. lia.
  - rewrite decide_False; [done|]. intros [? _]. lia.
Qed.

(** ** Reading the table *)

Lemma get_cons_eq (t : table) r :
  _sqlite_get_with_expire (r :: t) (kv.key r) = (Some (kv.value r), kv.expire_at r).
Proof. unfold _sqlite_get_with_expire. by rewrite filter_cons_True. Qed.

Lemma get_cons_ne (t : table) r key :
  kv.key r ≠ key →
  _sqlite_get_with_expire (r :: t) key = _sqlite_get_with_expire t key.
Proof. intros. unfold _sqlite_get_with_expire. by rewrite filter_cons_False. Qed.

Lemma get_absent (t : table) key :
  key ∉ kv.key <$> t → _sqlite_get_with_expire t key = (None, None).
Proof.
  intros Hk. unfold _sqlite_get_with_expire. rewrite filter_none; [done|].
  apply Forall_forall. intros r Hr Heq. apply Hk. subst key.
  by apply list_elem_of_fmap_2.
Qed.

(** Under a primary key, a row of the table is the row read under its key. *)
Lemma get_row (t : table) r :
  kv_wf t → r ∈ t →
  _sqlite_get_with_expire t (kv.key r) = (Some (kv.value r), kv.expire_at r).
Proof.
  intros [_ Hkey]. induction 1 as [r t|r r' t Hr IH].
  - apply get_cons_eq.
  - apply NoDup_cons in Hkey as [Hr' Hkey]. rewrite get_cons_ne; [by apply IH|].
    intros Heq. apply Hr'. rewrite Heq. by apply list_elem_of_fmap_2.
Qed.

(** Deleting rows makes a read give what it gave, or nothing. *)
Lemma get_sublist (t' t : table) key :
  t' `sublist_of` t → kv_wf t →
  _sqlite_get_with_expire t' key = _sqlite_get_with_expire t key
  ∨ _sqlite_get_with_expire t' key = (None, None).
Proof.
  induction 1 as [|r t' t Hsub IH|r t' t Hsub IH]; intros Hwf; [by left|..].
  - destruct (decide (kv.key r = key)) as [<-|Hne].
    + left. by rewrite !get_cons_eq.
    + rewrite !get_cons_ne by done. apply IH.
      eapply kv_wf_sublist; [|done]. apply sublist_cons, reflexivity.
  - destruct (decide (kv.key r = key)) as [<-|Hne].
    + right. apply get_absent. destruct Hwf as [_ [Hr _]%NoDup_cons].
      intros Hk. apply Hr. eapply elem_of_sublist; [done|]. by apply fmap_sublist.
    + rewrite (get_cons_ne t) by done. apply IH.
      eapply kv_wf_sublist; [|done]. apply sublist_cons, reflexivity.
Qed.

Lemma get_INSERT_OR_REPLACE_eq (t : table) key value expire_at :
  _sqlite_get_with_expire (INSERT_OR_REPLACE key value expire_at t) key
  = (Some value, expire_at).
Proof.
  unfold _sqlite_get_with_expire, INSERT_OR_REPLACE, DELETE_WHERE.
  rewrite filter_app, filter_none, filter_singleton_True; [done..|].
  apply Forall_forall. by intros r [Hr _]%list_elem_of_filter.
Qed.

Lemma get_INSERT_OR_REPLACE_ne (t : table) key key' value expire_at :
  key ≠ key' →
  _sqlite_get_with_expire (INSERT_OR_REPLACE key value expire_at t) key'
  = _sqlite_get_with_expire t key'.
Proof.
  intros Hne. unfold _sqlite_get_with_expire, INSERT_OR_REPLACE, DELETE_WHERE.
  rewrite filter_app, filter_singleton_False by done.
  rewrite app_nil_r, list_filter_filter.
  erewrite (list_filter_iff _ (λ r, kv.key r = key')); [done|].
  intros r. split; [by intros [? _]|]. intros <-. by split.
Qed.

(** The rows under a key, after [INSERT OR REPLACE] on that key. *)
Lemma INSERT_OR_REPLACE_rows_of_key (t : table) key value expire_at :
  filter (λ r, kv.key r = key) (INSERT_OR_REPLACE key value expire_at t)
  = [kv.Row (new_rowid t) key value expire_at].
Proof.
  unfold INSERT_OR_REPLACE, DELETE_WHERE.
  rewrite filter_app, filter_none, filter_singleton_True; [done..|].
  apply Forall_forall. by intros r [Hr _]%list_elem_of_filter.
Qed.

Lemma INSERT_OR_REPLACE_twice (t : table) key v1 e1 v2 e2 :
  stored_rows (INSERT_OR_REPLACE key v2 e2 (INSERT_OR_REPLACE key v1 e1 t))
  = stored_rows (INSERT_OR_REPLACE key v2 e2 t).
Proof.
  unfold stored_rows, INSERT_OR_REPLACE at 1 3. unfold DELETE_WHERE.
  rewrite !fmap_app. f_equal. f_equal.
  unfold INSERT_OR_REPLACE, DELETE_WHERE.
  rewrite filter_app, filter_singleton_False; [|done|intros Hn; by apply Hn].
  rewrite app_nil_r, list_filter_filter.
  apply list_filter_iff. intros r. split; [by intros [? _]|done].
Qed.

(** ** Statements run through a connection *)

Lemma execute_open {A} (w : World) conn p (f : table → A * table) :
  open_on w conn p →
  execute conn f w = (Ok (f (kv_of w p)).1, set_files <[p := (f (kv_of w p)).2]> w).
Proof. unfold open_on, execute. intros ->. by destruct (f _). Qed.

Lemma query_open {A} (w : World) conn p (f : table → A) :
  open_on w conn p → query conn f w = (Ok (f (kv_of w p)), w).
Proof. unfold open_on, query. by intros ->. Qed.

Lemma open_on_set_files (w : World) g conn p :
  open_on (set_files g w) conn p ↔ open_on w conn p.
Proof. done. Qed.

Lemma kv_of_insert (w : World) p (t : table) :
  kv_of (set_files <[p := t]> w) p = t.
Proof. unfold kv_of. simpl. by rewrite lookup_insert_eq. Qed.

Lemma kv_of_insert_ne (w : World) p q (t : table) :
  p ≠ q → kv_of (set_files <[p := t]> w) q = kv_of w q.
Proof. intros. unfold kv_of. simpl. by rewrite lookup_insert_ne. Qed.

Lemma set_files_insert_insert (w : World) p (t1 t2 : table) :
  set_files <[p := t2]> (set_files <[p := t1]> w) = set_files <[p := t2]> w.
Proof. unfold set_files. simpl. by rewrite insert_insert_eq. Qed.

(** ** The single-database store, on an open connection *)

Section disk_store.
Context `{Platform}.
Implicit Types (self : DiskStore.t) (w : World).

Lemma DiskStore_put_open now now' self w conn p key collection entry :
  DiskStore._conn self = Some conn → open_on w conn p →
  DiskStore._put_managed_entry now now' self key collection entry w
  = (Ok tt,
     set_files <[p := put_effect now now' (DiskStore._max_size self)
                        (compound_key collection key)
                        (dump_json (DiskStore._serialization_adapter self)
                           entry key collection)
                        (ttl entry) (kv_of w p)]> w).
Proof.
  intros Hconn Hopen.
  unfold DiskStore._put_managed_entry, DiskStore.get_conn, put_effect.
  rewrite Hconn. unfold mbind, M_bind, mret, M_ret.
  rewrite (execute_open _ _ p) by done. simpl.
  destruct (DiskStore._max_size self) as [max_size|]; [|done].
  case_bool_decide; [|done].
  rewrite (execute_open _ _ p) by done. simpl.
  by rewrite kv_of_insert, set_files_insert_insert.
Qed.

Lemma DiskStore_get_open self w conn p key collection :
  DiskStore._conn self = Some conn → open_on w conn p →
  DiskStore._get_managed_entry self key collection w
  = (entry_of_row (DiskStore._serialization_adapter self)
       (_sqlite_get_with_expire (kv_of w p) (compound_key collection key)),
     w).
Proof.
  intros Hconn Hopen.
  unfold DiskStore._get_managed_entry, DiskStore.get_conn, entry_of_row.
  rewrite Hconn. unfold mbind, M_bind, mret, M_ret.
  rewrite (query_open _ _ p) by done.
  destruct (_sqlite_get_with_expire _ _) as [[s|] expire_epoch]; [|done].
  unfold lift. destruct (load_json _ s); [|done].
  destruct expire_epoch as [t|]; [|done].
  destruct (truthy (Some t)); [|done]. by destruct (fromtimestamp t).
Qed.

End disk_store.

(** ** Eviction *)

Lemma _sqlite_evict_stops now (conn : table) max_size :
  ∃ n, (n ≤ length (DELETE_WHERE (expired now) conn))%nat
    ∧ trim_iter n max_size (DELETE_WHERE (expired now) conn)
      = Some (_sqlite_evict now conn max_size)
    ∧ trim_step max_size (_sqlite_evict now conn max_size) = None.
Proof. apply trim_loop_stops. Qed.

(** The loop is left with the size that SQLite measures within the bound,
    or with no row. *)
Lemma _sqlite_evict_within_bound now (conn : table) max_size :
  SUM_LENGTH (_sqlite_evict now conn max_size) ≤ max_size
  ∨ _sqlite_evict now conn max_size = [].
Proof.
  destruct (_sqlite_evict_stops now conn max_size) as (n & _ & _ & Hexit).
  by apply trim_step_None.
Qed.

(** On a table in rowid order, [_sqlite_evict] is the eviction pass under
    the size that SQLite measures. *)
Lemma _sqlite_evict_evict_by now (conn : table) max_size :
  kv_wf conn →
  _sqlite_evict now conn max_size = Spec.evict_by SUM_LENGTH now max_size conn.
Proof.
  intros Hwf. unfold _sqlite_evict, Spec.evict_by.
  rewrite trim_loop_proportional_trim.
  - by rewrite DELETE_WHERE_expired.
  - eapply kv_wf_sublist; [apply DELETE_WHERE_sublist|done].
Qed.

(** Where no text of the table holds a NUL character, the eviction pass
    under the measured size is the one under the sum of character lengths. *)
Lemma evict_by_NUL_free now (t : table) bound :
  NUL_free_table t →
  Spec.evict_by SUM_LENGTH now bound t = Spec.evict now bound t.
Proof.
  intros Hfree. unfold Spec.evict, Spec.evict_by.
  apply proportional_trim_by_ext. intros k. apply SUM_LENGTH_NUL_free.
  eapply NUL_free_table_sublist; [|done].
  etrans; [apply sublist_drop|]. apply sublist_filter.
Qed.

(** C1 — The trim loop of [_sqlite_evict] terminates, for every table and
    every bound (the stores call it with positive bounds only): after at most
    as many iterations of its body as the swept table has rows, the loop is
    left, at the table that [_sqlite_evict] leaves behind.  Where no key and
    no value that remains in that table holds a NUL character, the sum of
    [length(key) + length(value)] over the remaining rows is at most the
    bound, or no row remains. *)
Theorem C1_trim_loop_terminates_within_bound now (conn : table) max_size :
  let swept := DELETE_WHERE (expired now) conn in
  let final := _sqlite_evict now conn max_size in
  (∃ n, (n ≤ length swept)%nat
      ∧ trim_iter n max_size swept = Some final
      ∧ trim_step max_size final = None)
  ∧ (NUL_free_table final → approximate_size final ≤ max_size ∨ final = []).
Proof.
  intros swept final. split.
  - apply _sqlite_evict_stops.
  - intros Hfree. rewrite <-SUM_LENGTH_NUL_free by done.
    apply _sqlite_evict_within_bound.
Qed.

(** A value with a NUL character: after the [Set] and the eviction pass
    under the positive bound 2, the row is still there, and its key and
    value have 1 + 4 characters. *)
Lemma C1_counterexample :
  let conn := (_sqlite_set 0 [] "k" (String "a" (String Ascii.zero "bc")) None).2 in
  let final := _sqlite_evict 0 conn 2 in
  final = [NUL_row]
  ∧ approximate_size final = 5
  ∧ ¬ (approximate_size final ≤ 2 ∨ final = []).
Proof.
  split; [reflexivity|]. split; [reflexivity|].
  intros [Hle|Hnil]; [|discriminate Hnil]. by vm_compute in Hle.
Qed.

(** C2 — On a table in rowid order whose keys and values hold no NUL
    character, [_sqlite_evict] is the eviction pass of the specification:
    first exactly the rows whose [expire_at] is set and less than the
    current time are deleted; then, while the total approximate size exceeds
    the bound and rows remain, each iteration deletes exactly the
    [max(1, floor(row_count / 10))] first rows in insertion order. *)
Theorem C2_evict_sweeps_then_trims_oldest now (conn : table) max_size :
  kv_wf conn → NUL_free_table conn →
  _sqlite_evict now conn max_size = Spec.evict now max_size conn.
Proof.
  intros Hwf Hfree.
  rewrite _sqlite_evict_evict_by by done. by apply evict_by_NUL_free.
Qed.

Lemma C2_evict_sweeps_then_trims_oldest_witness :
  let conn := [kv.Row 1 "a" "xx" (Some 50); kv.Row 2 "b" "yyyy" None;
               kv.Row 4 "c" "z" None; kv.Row 7 "d" "ww" None] in
  (kv_wf conn ∧ NUL_free_table conn)
  ∧ _sqlite_evict 100 conn 6 = Spec.evict 100 6 conn
  ∧ _sqlite_evict 100 conn 6 = [kv.Row 4 "c" "z" None; kv.Row 7 "d" "ww" None].
Proof.
  intros conn. assert (Hwf : kv_wf conn) by compute_done.
  assert (Hfree : NUL_free_table conn) by compute_done.
  split; [done|]. split; [|reflexivity].
  exact (C2_evict_sweeps_then_trims_oldest 100 conn 6 Hwf Hfree).
Defined.

(** A value with a NUL character: the total approximate size, 5, exceeds
    the bound 2 and a row remains, so the pass of the specification deletes
    the row; [_sqlite_evict] leaves it. *)
Lemma C2_counterexample :
  kv_wf [NUL_row]
  ∧ _sqlite_evict 0 [NUL_row] 2 = [NUL_row]
  ∧ Spec.evict 0 2 [NUL_row] = []
  ∧ _sqlite_evict 0 [NUL_row] 2 ≠ Spec.evict 0 2 [NUL_row].
Proof.
  split; [compute_done|]. split; [reflexivity|].
  assert (Hspec : Spec.evict 0 2 [NUL_row] = []).
  { unfold Spec.evict, Spec.evict_by, Spec.proportional_trim.
    rewrite proportional_trim_eq. rewrite decide_True by (split; [by vm_compute|done]).
    rewrite proportional_trim_eq. by rewrite decide_False by (intros [_ ?]; done). }
  split; [done|]. rewrite Hspec. discriminate.
Qed.

(** ** Upsert *)

(** C3 — After two [_sqlite_set] calls with the same key, exactly one row
    is stored under that key, and it holds the value and the [expire_at] of
    the second call; the stored rows are those that the second call alone
    would have left. *)
Theorem C3_set_twice_second_wins now1 now2 (conn : table) key v1 v2 expire1 expire2 :
  let conn1 := (_sqlite_set now1 conn key v1 expire1).2 in
  let conn2 := (_sqlite_set now2 conn1 key v2 expire2).2 in
  let expire_at2 := (λ expire, now2 + expire) <$> expire2 in
  (∃ rowid, filter (λ r, kv.key r = key) conn2 = [kv.Row rowid key v2 expire_at2])
  ∧ _sqlite_get_with_expire conn2 key = (Some v2, expire_at2)
  ∧ stored_rows conn2 = stored_rows (_sqlite_set now2 conn key v2 expire2).2.
Proof.
  simpl. split_and!.
  - eexists. rewrite INSERT_OR_REPLACE_rows_of_key. by destruct expire2.
  - rewrite get_INSERT_OR_REPLACE_eq. by destruct expire2.
  - apply INSERT_OR_REPLACE_twice.
Qed.

(** ** Compound keys *)

Lemma append_cons a (s1 s2 : string) :
  String a s1 +:+ s2 = String a (s1 +:+ s2).
Proof. reflexivity. Qed.

Lemma length_append (s1 s2 : string) :
  String.length (s1 +:+ s2) = (String.length s1 + String.length s2)%nat.
Proof.
  induction s1 as [|a s1 IH]; [done|].
  rewrite append_cons. simpl. by rewrite IH.
Qed.

Lemma append_inj_r (s1 s2 s : string) : s1 +:+ s = s2 +:+ s → s1 = s2.
Proof.
  revert s2. induction s1 as [|a s1 IH]; intros [|b s2] Heq.
  - done.
  - apply (f_equal String.length) in Heq.
    rewrite !length_append in Heq. simpl in Heq. lia.
  - apply (f_equal String.length) in Heq.
    rewrite !length_append in Heq. simpl in Heq. lia.
  - rewrite !append_cons in Heq. injection Heq as -> Heq.
    f_equal. by apply IH.
Qed.

(** Under one key, distinct collections have distinct compound keys. *)
Lemma compound_key_inj_collection (A B key : string) :
  compound_key A key = compound_key B key → A = B.
Proof. unfold compound_key. apply append_inj_r. Qed.

(** ** What a put leaves in the table *)

Lemma put_effect_sublist now now' max_size key value expire (db : table) :
  put_effect now now' max_size key value expire db
    `sublist_of` (_sqlite_set now db key value expire).2.
Proof.
  unfold put_effect. destruct max_size as [m|]; [|done].
  case_bool_decide; [|done]. apply _sqlite_evict_sublist.
Qed.

Lemma put_effect_no_eviction now now' max_size key value expire (db : table) :
  ¬ (∃ m, max_size = Some m ∧ m > 0) →
  put_effect now now' max_size key value expire db
  = (_sqlite_set now db key value expire).2.
Proof.
  intros Hoff. unfold put_effect. destruct max_size as [m|]; [|done].
  case_bool_decide; [|done]. destruct Hoff. eauto.
Qed.

Lemma kv_wf_put_effect now now' max_size key value expire (db : table) :
  kv_wf db → kv_wf (put_effect now now' max_size key value expire db).
Proof.
  intros Hwf. eapply kv_wf_sublist; [apply put_effect_sublist|].
  by apply kv_wf__sqlite_set.
Qed.

(** With eviction enabled, a put leaves the table within the bound, in the
    size that SQLite measures. *)
Lemma put_effect_within_bound now now' max_size key value expire (db : table) :
  max_size > 0 →
  SUM_LENGTH (put_effect now now' (Some max_size) key value expire db)
  ≤ max_size.
Proof.
  intros Hpos. unfold put_effect. rewrite bool_decide_true by done.
  destruct (_sqlite_evict_within_bound now'
    (_sqlite_set now db key value expire).2 max_size) as [Hle| ->];
    [done|]. unfold SUM_LENGTH. simpl. lia.
Qed.

(** ** Reads *)

Lemma entry_of_row_absent `{Platform} adapter expire_epoch :
  entry_of_row adapter (None, expire_epoch) = Ok None.
Proof. done. Qed.

Lemma entry_of_row_present `{Platform} adapter value expire_epoch :
  entry_of_row adapter (Some value, expire_epoch) ≠ Ok None.
Proof.
  simpl. destruct (load_json adapter value); [|done].
  destruct expire_epoch as [t|]; [|done].
  destruct (bool_decide (t ≠ 0)); [|done]. by destruct (fromtimestamp t).
Qed.

(** A column that is set and not zero replaces the expiration of the entry,
    by the [datetime] of that timestamp. *)
Lemma entry_of_row_expire_nonzero `{Platform} adapter value e d m :
  load_json adapter value = Ok m → e ≠ 0 → fromtimestamp e = Ok d →
  entry_of_row adapter (Some value, Some e)
  = Ok (Some (set_expires_at (Some d) m)).
Proof.
  intros Hload He Hd. simpl. rewrite Hload, Hd. by rewrite bool_decide_true.
Qed.

(** A column that is zero, like one that is not set, leaves the entry as
    the adapter read it. *)
Lemma entry_of_row_expire_zero `{Platform} adapter value m :
  load_json adapter value = Ok m →
  entry_of_row adapter (Some value, Some 0) = Ok (Some m).
Proof. intros Hload. simpl. by rewrite Hload. Qed.

Lemma entry_of_row_expire_unset `{Platform} adapter value m :
  load_json adapter value = Ok m →
  entry_of_row adapter (Some value, None) = Ok (Some m).
Proof. intros Hload. simpl. by rewrite Hload. Qed.

(** C10 — A read does not filter by expiration: a stored row whose
    [expire_at] is in the past is still returned by
    [_sqlite_get_with_expire], with its value and that [expire_at], and
    [DiskStore._get_managed_entry] makes an entry of it rather than the
    absent result. *)
Theorem C10_read_returns_expired_row `{Platform} now (self : DiskStore.t)
    (w : World) conn p key collection r e :
  DiskStore._conn self = Some conn → open_on w conn p →
  kv_wf (kv_of w p) → r ∈ kv_of w p →
  kv.key r = compound_key collection key →
  kv.expire_at r = Some e → e < now →
  _sqlite_get_with_expire (kv_of w p) (compound_key collection key)
    = (Some (kv.value r), Some e)
  ∧ DiskStore._get_managed_entry self key collection w
    = (entry_of_row (DiskStore._serialization_adapter self)
         (Some (kv.value r), Some e), w)
  ∧ entry_of_row (DiskStore._serialization_adapter self)
      (Some (kv.value r), Some e) ≠ Ok None.
Proof.
  intros Hconn Hopen Hwf Hr Hkey Hexp _.
  assert (_sqlite_get_with_expire (kv_of w p) (compound_key collection key)
          = (Some (kv.value r), Some e)) as Hget.
  { rewrite <-Hkey, <-Hexp. by apply get_row. }
  split_and!; [done| |apply entry_of_row_present].
  by rewrite (DiskStore_get_open _ _ conn p), Hget.
Qed.

Lemma C10_read_returns_expired_row_witness :
  let w := Posix.world_with [kv.Row 1 "c::k" "v" (Some 5)] in
  _sqlite_get_with_expire (kv_of w Posix.db) (compound_key "c" "k")
    = (Some "v", Some 5)
  ∧ DiskStore._get_managed_entry (Posix.disk_store None) "k" "c" w
    = (entry_of_row Posix.adapter (Some "v", Some 5), w)
  ∧ entry_of_row Posix.adapter (Some "v", Some 5) ≠ Ok None.
Proof.
  intros w.
  refine (C10_read_returns_expired_row (H:=Posix.platform) 100 (Posix.disk_store None) w 0%nat
    Posix.db "k" "c" (kv.Row 1 "c::k" "v" (Some 5)) 5 _ _ _ _ _ _ _);
    [reflexivity|reflexivity|compute_done|compute_done|reflexivity
    |reflexivity|lia].
Defined.

(** Where the column is set and not zero, the entry that
    [DiskStore._get_managed_entry] returns carries the [datetime] of the
    column as its expiration. *)
Lemma DiskStore_get_applies_expire_at `{Platform} (self : DiskStore.t)
    (w : World) conn p key collection r e d m :
  DiskStore._conn self = Some conn → open_on w conn p →
  kv_wf (kv_of w p) → r ∈ kv_of w p →
  kv.key r = compound_key collection key →
  kv.expire_at r = Some e → e ≠ 0 → fromtimestamp e = Ok d →
  load_json (DiskStore._serialization_adapter self) (kv.value r) = Ok m →
  DiskStore._get_managed_entry self key collection w
  = (Ok (Some (set_expires_at (Some d) m)), w).
Proof.
  intros Hconn Hopen Hwf Hr Hkey Hexp He Hd Hload.
  rewrite (DiskStore_get_open _ _ conn p), <-Hkey by done.
  rewrite get_row, Hexp by done.
  by rewrite (entry_of_row_expire_nonzero _ _ _ d m).
Qed.

(** C9 — The expiration of the returned entry is overwritten with the
    [expire_at] column only where the column is true in Python's sense: on
    a row whose column is set to zero, both stores return the entry with the
    expiration that the adapter read from the text (here none), not with the
    column value. *)
Theorem C9_zero_expire_at_is_not_applied :
  let w := Posix.world_with [kv.Row 1 "c::k" "v" (Some 0)] in
  let w' := Posix.world_with [kv.Row 1 "k" "v" (Some 0)] in
  (∃ entry,
     DiskStore._get_managed_entry (Posix.disk_store None) "k" "c" w
       = (Ok (Some entry), w)
     ∧ expires_at entry = None)
  ∧ (∃ entry,
     MultiDiskStore._get_managed_entry (Posix.multi_store None) "k" "c" w'
       = (Ok (Some entry), w')
     ∧ expires_at entry = None).
Proof. split; exists (Posix.entry "v" None); by vm_compute. Qed.

(** ** Collections in one database *)

(** C4 — In single-database mode, for distinct collections [A] and [B] and
    a key [k], the compound keys differ, and after [Set(A, k, v1)] and
    [Set(B, k, v2)] the read of [(A, k)] through the connection returns
    [v1], or nothing when an eviction pass has deleted the row, and never
    the value of [B]; likewise for [(B, k)].  Where no positive size bound
    is configured, the reads return exactly [v1] and [v2]. *)
Theorem C4_collections_do_not_collide now1 now1' now2 now2'
    (self : DiskStore.t) (w : World) conn p A B k e1 e2 :
  DiskStore._conn self = Some conn → open_on w conn p →
  kv_wf (kv_of w p) →
  A ≠ B →
  let adapter := DiskStore._serialization_adapter self in
  let own1 := (Some (dump_json adapter e1 k A), (λ ttl, now1 + ttl) <$> ttl e1) in
  let own2 := (Some (dump_json adapter e2 k B), (λ ttl, now2 + ttl) <$> ttl e2) in
  compound_key A k ≠ compound_key B k
  ∧ ∃ w1 w2 got1 got2,
      DiskStore._put_managed_entry now1 now1' self k A e1 w = (Ok tt, w1)
      ∧ DiskStore._put_managed_entry now2 now2' self k B e2 w1 = (Ok tt, w2)
      ∧ query conn (λ db, _sqlite_get_with_expire db (compound_key A k)) w2
        = (Ok got1, w2)
      ∧ query conn (λ db, _sqlite_get_with_expire db (compound_key B k)) w2
        = (Ok got2, w2)
      ∧ (got1 = own1 ∨ got1 = (None, None))
      ∧ (got2 = own2 ∨ got2 = (None, None))
      ∧ (¬ (∃ m, DiskStore._max_size self = Some m ∧ m > 0) →
         got1 = own1 ∧ got2 = own2).
Proof.
  intros Hconn Hopen Hwf HAB adapter own1 own2.
  assert (HkAB : compound_key A k ≠ compound_key B k).
  { by intros ?%compound_key_inj_collection. }
  split; [done|].
  set (v1 := dump_json adapter e1 k A). set (v2 := dump_json adapter e2 k B).
  set (max_size := DiskStore._max_size self).
  set (t1 := put_effect now1 now1' max_size (compound_key A k) v1 (ttl e1) (kv_of w p)).
  set (t2 := put_effect now2 now2' max_size (compound_key B k) v2 (ttl e2) t1).
  exists (set_files <[p := t1]> w), (set_files <[p := t2]> w).
  exists (_sqlite_get_with_expire t2 (compound_key A k)),
    (_sqlite_get_with_expire t2 (compound_key B k)).
  assert (Hwf1 : kv_wf t1) by by apply kv_wf_put_effect.
  assert (Hset1 : _sqlite_get_with_expire
    (_sqlite_set now1 (kv_of w p) (compound_key A k) v1 (ttl e1)).2
    (compound_key A k) = own1).
  { simpl. rewrite get_INSERT_OR_REPLACE_eq. unfold own1. by destruct (ttl e1). }
  assert (Hset2 : _sqlite_get_with_expire
    (_sqlite_set now2 t1 (compound_key B k) v2 (ttl e2)).2
    (compound_key B k) = own2).
  { simpl. rewrite get_INSERT_OR_REPLACE_eq. unfold own2. by destruct (ttl e2). }
  assert (Hkeep : _sqlite_get_with_expire
    (_sqlite_set now2 t1 (compound_key B k) v2 (ttl e2)).2
    (compound_key A k) = _sqlite_get_with_expire t1 (compound_key A k)).
  { simpl. by rewrite get_INSERT_OR_REPLACE_ne. }
  split_and!.
  - by rewrite (DiskStore_put_open _ _ _ _ conn p).
  - rewrite (DiskStore_put_open _ _ _ _ conn p) by done.
    by rewrite kv_of_insert, set_files_insert_insert.
  - by rewrite (query_open _ _ p), kv_of_insert.
  - by rewrite (query_open _ _ p), kv_of_insert.
  - destruct (get_sublist t2 _ (compound_key A k)
      (put_effect_sublist now2 now2' max_size (compound_key B k) v2 (ttl e2) t1))
      as [->| ->]; [by apply kv_wf__sqlite_set| |by right].
    rewrite Hkeep.
    destruct (get_sublist t1 _ (compound_key A k)
      (put_effect_sublist now1 now1' max_size (compound_key A k) v1 (ttl e1)
         (kv_of w p))) as [->| ->]; [by apply kv_wf__sqlite_set| |by right].
    by left.
  - destruct (get_sublist t2 _ (compound_key B k)
      (put_effect_sublist now2 now2' max_size (compound_key B k) v2 (ttl e2) t1))
      as [->| ->]; [by apply kv_wf__sqlite_set| |by right].
    by left.
  - intros Hoff.
    assert (Ht2 : t2 = (_sqlite_set now2 t1 (compound_key B k) v2 (ttl e2)).2)
      by by apply put_effect_no_eviction.
    assert (Ht1 : t1
      = (_sqlite_set now1 (kv_of w p) (compound_key A k) v1 (ttl e1)).2)
      by by apply put_effect_no_eviction.
    rewrite Ht2. split; [|done]. by rewrite Hkeep, Ht1.
Qed.

Lemma C4_collections_do_not_collide_witness :
  let self := Posix.disk_store (Some 8) in
  let w := Posix.world_with [] in
  let e1 := Posix.entry "v1" None in
  let e2 := Posix.entry "v2" (Some 10) in
  (DiskStore._conn self = Some 0%nat ∧ open_on w 0%nat Posix.db
   ∧ kv_wf (kv_of w Posix.db) ∧ "A" ≠ "B")
  ∧ compound_key "A" "k" ≠ compound_key "B" "k"
  ∧ ∃ w1 w2 got1 got2,
      DiskStore._put_managed_entry 5 6 self "k" "A" e1 w = (Ok tt, w1)
      ∧ DiskStore._put_managed_entry 7 8 self "k" "B" e2 w1 = (Ok tt, w2)
      ∧ query 0%nat (λ db, _sqlite_get_with_expire db (compound_key "A" "k")) w2
        = (Ok got1, w2)
      ∧ query 0%nat (λ db, _sqlite_get_with_expire db (compound_key "B" "k")) w2
        = (Ok got2, w2)
      ∧ (got1 = (Some "v1", None) ∨ got1 = (None, None))
      ∧ (got2 = (Some "v2", Some 17) ∨ got2 = (None, None))
      ∧ (¬ (∃ m, DiskStore._max_size self = Some m ∧ m > 0) →
         got1 = (Some "v1", None) ∧ got2 = (Some "v2", Some 17)).
Proof.
  intros self w e1 e2.
  assert (H1 : DiskStore._conn self = Some 0%nat) by reflexivity.
  assert (H2 : open_on w 0%nat Posix.db) by reflexivity.
  assert (H3 : kv_wf (kv_of w Posix.db)) by compute_done.
  assert (H4 : "A" ≠ "B") by discriminate.
  split; [done|].
  exact (C4_collections_do_not_collide 5 6 7 8 self w 0%nat Posix.db
           "A" "B" "k" e1 e2 H1 H2 H3 H4).
Defined.

(** With a bound that holds one row only, the second put evicts the row of
    the first: the read of [(A, k)] is absent. *)
Lemma C4_counterexample :
  let self := Posix.disk_store (Some 8) in
  let w := Posix.world_with [] in
  let put1 := DiskStore._put_managed_entry 5 6 self "k" "A" (Posix.entry "v1" None) w in
  let put2 := DiskStore._put_managed_entry 7 8 self "k" "B" (Posix.entry "v2" None) put1.2 in
  put1.1 = Ok tt ∧ put2.1 = Ok tt
  ∧ query 0%nat (λ db, _sqlite_get_with_expire db (compound_key "A" "k")) put2.2
    = (Ok (None, None), put2.2)
  ∧ DiskStore._get_managed_entry self "k" "A" put2.2 = (Ok None, put2.2)
  ∧ query 0%nat (λ db, _sqlite_get_with_expire db (compound_key "B" "k")) put2.2
    = (Ok (Some "v2", None), put2.2).
Proof. by vm_compute. Qed.

(** ** Construction *)

Section construction.
Context `{Platform}.

Lemma DiskStore_init_both adapter connection directory max_size
    default_collection auto_create (w : World) :
  DiskStore.__init__ adapter (Some connection) (Some directory) max_size
    default_collection auto_create w
  = (Raise (ValueError "Provide only one of connection or directory"), w).
Proof.
  unfold DiskStore.__init__. by rewrite bool_decide_true by (split; eauto).
Qed.

Lemma DiskStore_init_neither adapter max_size default_collection auto_create
    (w : World) :
  DiskStore.__init__ adapter None None max_size default_collection auto_create w
  = (Raise (ValueError "Either connection or directory must be provided"), w).
Proof.
  unfold DiskStore.__init__.
  rewrite bool_decide_false by (by intros [[? [=]] _]).
  by rewrite bool_decide_true.
Qed.

Lemma DiskStore_init_connection adapter connection max_size
    default_collection auto_create (w : World) :
  DiskStore.__init__ adapter (Some connection) None max_size
    default_collection auto_create w
  = (Ok {| DiskStore._conn := Some connection;
           DiskStore._max_size := max_size;
           DiskStore._auto_create := auto_create;
           DiskStore._client_provided_by_user := true;
           DiskStore._serialization_adapter := adapter;
           DiskStore.default_collection := default_collection;
           DiskStore._exit_stack := [] |}, w).
Proof.
  unfold DiskStore.__init__.
  rewrite bool_decide_false by (by intros [_ [? [=]]]).
  rewrite bool_decide_false by (by intros [[=] _]).
  by rewrite bool_decide_true by eauto.
Qed.

Lemma MultiDiskStore_init_neither adapter max_size default_collection
    auto_create (w : World) :
  MultiDiskStore.__init__ adapter None None max_size default_collection
    auto_create w
  = (Raise (ValueError
       "Either connection_factory or base_directory must be provided"), w).
Proof. unfold MultiDiskStore.__init__. by rewrite bool_decide_true. Qed.

Lemma MultiDiskStore_init_factory adapter factory base_directory max_size
    default_collection auto_create (w : World) :
  MultiDiskStore.__init__ adapter (Some factory) base_directory max_size
    default_collection auto_create w
  = (Ok {| MultiDiskStore._conn := ∅;
           MultiDiskStore._connection_factory :=
             MultiDiskStore.caller_factory factory;
           MultiDiskStore._base_directory :=
             Path_resolve (default Path_cwd base_directory);
           MultiDiskStore._max_size := max_size;
           MultiDiskStore._auto_create := auto_create;
           MultiDiskStore._serialization_adapter := adapter;
           MultiDiskStore.default_collection := default_collection;
           MultiDiskStore._exit_stack := [];
           MultiDiskStore._setup_collection_complete := ∅ |}, w).
Proof.
  unfold MultiDiskStore.__init__.
  by rewrite bool_decide_false by (by intros [[=] _]).
Qed.

(** C7 — [MultiDiskStore.__init__] raises no error when both a connection
    factory and a base directory are supplied: it returns a store that
    uses the caller's factory.  ([DiskStore.__init__] raises [ValueError]
    when both or neither are supplied, [MultiDiskStore.__init__] when
    neither is: [DiskStore_init_both], [DiskStore_init_neither],
    [MultiDiskStore_init_neither].) *)
Theorem C7_multi_store_accepts_factory_and_directory adapter factory
    base_directory max_size default_collection auto_create (w : World) :
  ∃ self,
    MultiDiskStore.__init__ adapter (Some factory) (Some base_directory)
      max_size default_collection auto_create w = (Ok self, w)
    ∧ MultiDiskStore._connection_factory self
      = MultiDiskStore.caller_factory factory
    ∧ MultiDiskStore._base_directory self = Path_resolve base_directory.
Proof. eexists. by rewrite MultiDiskStore_init_factory. Qed.

End construction.

(** ** Closing connections *)

Lemma _sqlite_close_eq conn (w : World) :
  _sqlite_close conn w = (Ok tt, set_conns (alter close_connection conn) w).
Proof. done. Qed.

Lemma close_connection_idemp c :
  close_connection (close_connection c) = close_connection c.
Proof. done. Qed.

(** Closing the connections of a list, one after the other: the connections
    of the list are closed, the others, the directories and the files stay
    as they are. *)
Lemma close_each (l : list conn_id) (w : World) :
  ∃ w',
    foldr (λ conn k, _sqlite_close conn ;; k) (mret tt) l w = (Ok tt, w')
    ∧ dirs w' = dirs w ∧ files w' = files w
    ∧ ∀ c, conns w' !! c
           = if decide (c ∈ l) then close_connection <$> conns w !! c
             else conns w !! c.
Proof.
  revert w. induction l as [|a l IH]; intros w.
  { by exists w. }
  destruct (IH (set_conns (alter close_connection a) w))
    as (w' & Hrun & Hdirs & Hfiles & Hconns).
  exists w'. split; [by simpl; unfold mbind, M_bind; simpl|].
  split; [done|]. split; [done|].
  intros c. rewrite Hconns. simpl. rewrite list_lookup_alter.
  clear. rewrite (decide_ext (c ∈ a :: l) (c = a ∨ c ∈ l)) by apply elem_of_cons.
  repeat case_decide; subst; try done; try (exfalso; intuition congruence).
  by destruct (conns w !! c).
Qed.

Lemma MultiDiskStore_sync_close (self : MultiDiskStore.t) (w : World) :
  ∃ w',
    MultiDiskStore._sync_close self w = (Ok tt, w')
    ∧ dirs w' = dirs w ∧ files w' = files w
    ∧ (∀ collection conn c,
         MultiDiskStore._conn self !! collection = Some conn →
         conns w !! conn = Some c →
         conns w' !! conn = Some (close_connection c))
    ∧ (∀ conn,
         (∀ collection, MultiDiskStore._conn self !! collection ≠ Some conn) →
         conns w' !! conn = conns w !! conn).
Proof.
  unfold MultiDiskStore._sync_close.
  destruct (close_each (map_to_list (MultiDiskStore._conn self)).*2 w)
    as (w' & Hrun & Hdirs & Hfiles & Hconns).
  exists w'. split_and!; [done..| |].
  - intros collection conn c Hc Hw. rewrite Hconns.
    rewrite decide_True; [by rewrite Hw|].
    apply list_elem_of_fmap. exists (collection, conn).
    split; [done|]. by apply elem_of_map_to_list.
  - intros conn Hnot. rewrite Hconns.
    rewrite decide_False; [done|].
    intros ([collection conn'] & -> & Hin%elem_of_map_to_list)%list_elem_of_fmap.
    by apply (Hnot collection).
Qed.

(** ** Teardown *)

(** C5 — A [DiskStore] constructed with a caller-supplied connection
    registers no cleanup: teardown and [__del__] leave the world, hence the
    connection, as they are.  A [MultiDiskStore] closes on teardown, and in
    [__del__], every connection of its dictionary, whichever factory made
    it. *)
Theorem C5_teardown_closes_what_the_store_holds `{Platform} adapter connection
    max_size default_collection auto_create (w0 w : World)
    (multi : MultiDiskStore.t) collection conn c :
  MultiDiskStore._exit_stack multi = [] →
  MultiDiskStore._conn multi !! collection = Some conn →
  conns w !! conn = Some c →
  (∃ self,
     DiskStore.__init__ adapter (Some connection) None max_size
       default_collection auto_create w0 = (Ok self, w0)
     ∧ DiskStore._setup self w0 = (Ok self, w0)
     ∧ ∀ w1, DiskStore.teardown self w1 = (Ok tt, w1)
             ∧ DiskStore.__del__ self w1 = (Ok tt, w1))
  ∧ (∃ multi' w' w'',
       MultiDiskStore._setup multi w = (Ok multi', w)
       ∧ MultiDiskStore.teardown multi' w = (Ok tt, w')
       ∧ conns w' !! conn = Some (close_connection c)
       ∧ MultiDiskStore.__del__ multi w = (Ok tt, w'')
       ∧ conns w'' !! conn = Some (close_connection c)).
Proof.
  intros Hstack Hconn Hc. split.
  - eexists. rewrite DiskStore_init_connection. by split_and!.
  - destruct (MultiDiskStore_sync_close multi w)
      as (w' & Hrun & _ & _ & Hclosed & _).
    exists (MultiDiskStore.set_exit_stack (cons MultiDiskStore.sync_close) multi),
      w', w'.
    split_and!; [done| |by eapply Hclosed|done|by eapply Hclosed].
    unfold MultiDiskStore.teardown. simpl. rewrite Hstack. simpl.
    unfold mbind, M_bind. unfold MultiDiskStore._sync_close in *. simpl.
    by rewrite Hrun.
Qed.

Lemma C5_teardown_closes_what_the_store_holds_witness :
  let w := Posix.world_with [] in
  (MultiDiskStore._exit_stack (Posix.multi_store None) = []
   ∧ MultiDiskStore._conn (Posix.multi_store None) !! "c" = Some 0%nat
   ∧ conns w !! 0%nat = Some {| db_path := Posix.db; is_open := true |})
  ∧ (∃ self,
       DiskStore.__init__ Posix.adapter (Some 0%nat) None None None true w
         = (Ok self, w)
       ∧ DiskStore._setup self w = (Ok self, w)
       ∧ ∀ w1, DiskStore.teardown self w1 = (Ok tt, w1)
               ∧ DiskStore.__del__ self w1 = (Ok tt, w1))
  ∧ (∃ multi' w' w'',
       MultiDiskStore._setup (Posix.multi_store None) w = (Ok multi', w)
       ∧ MultiDiskStore.teardown multi' w = (Ok tt, w')
       ∧ conns w' !! 0%nat = Some {| db_path := Posix.db; is_open := false |}
       ∧ MultiDiskStore.__del__ (Posix.multi_store None) w = (Ok tt, w'')
       ∧ conns w'' !! 0%nat = Some {| db_path := Posix.db; is_open := false |}).
Proof.
  intros w.
  assert (H1 : MultiDiskStore._exit_stack (Posix.multi_store None) = [])
    by reflexivity.
  assert (H2 : MultiDiskStore._conn (Posix.multi_store None) !! "c" = Some 0%nat)
    by reflexivity.
  assert (H3 : conns w !! 0%nat = Some {| db_path := Posix.db; is_open := true |})
    by reflexivity.
  split; [done|].
  exact (C5_teardown_closes_what_the_store_holds Posix.adapter 0%nat None None
           true w w (Posix.multi_store None) "c" 0%nat _ H1 H2 H3).
Defined.

(** A connection made by the caller's factory is closed by the teardown of
    the [MultiDiskStore] that asked for it. *)
Lemma C5_counterexample :
  let factory : MultiDiskStore.ConnectionFactory :=
    λ _, _create_connection ["ext"; "kv.db"] in
  ∃ self0 self1 self2 w2 w3,
    MultiDiskStore.__init__ Posix.adapter (Some factory) None None None true
      Posix.boot = (Ok self0, Posix.boot)
    ∧ MultiDiskStore._connection_factory self0
      = MultiDiskStore.caller_factory factory
    ∧ MultiDiskStore._setup self0 Posix.boot = (Ok self1, Posix.boot)
    ∧ MultiDiskStore._setup_collection self1 "c" Posix.boot = (Ok self2, w2)
    ∧ MultiDiskStore._conn self2 !! "c" = Some 0%nat
    ∧ open_on w2 0%nat ["ext"; "kv.db"]
    ∧ MultiDiskStore.teardown self2 w2 = (Ok tt, w3)
    ∧ closed w3 0%nat.
Proof.
  intros factory. eexists _, _, _, _, _.
  split; [by rewrite MultiDiskStore_init_factory|].
  split; [done|]. split; [done|]. split; [done|].
  split; [done|]. split; [done|]. split; [done|].
  by exists ["ext"; "kv.db"].
Qed.

(** ** Directories *)

Lemma Path_exists_missing (w : World) p :
  missing w p → Path_exists p w = (Ok false, w).
Proof.
  intros [Hdir Hfile]. unfold Path_exists, gets.
  rewrite bool_decide_false; [done|]. rewrite Hfile.
  by intros [?|[? [=]]].
Qed.

Lemma Path_exists_present (w : World) p :
  ¬ missing w p → Path_exists p w = (Ok true, w).
Proof.
  intros Hp. unfold Path_exists, gets. rewrite bool_decide_true; [done|].
  destruct (decide (p ∈ dirs w)) as [|Hdir]; [by left|right].
  destruct (files w !! p) eqn:Hfile; [done|]. by destruct Hp.
Qed.

Lemma Path_lineage_take p n : take n p ∈ Path_lineage p.
Proof.
  unfold Path_lineage. apply list_elem_of_fmap.
  destruct (decide (n ≤ length p)%nat).
  - exists n. split; [done|]. apply elem_of_seq. lia.
  - exists (length p). split; [by rewrite !take_ge by lia|].
    apply elem_of_seq. lia.
Qed.

Lemma with_directory_take (w : World) p n :
  take n p ∈ dirs (with_directory p w).
Proof.
  change (take n p ∈ dirs w ∪ list_to_set (Path_lineage p)).
  apply elem_of_union_r, elem_of_list_to_set, Path_lineage_take.
Qed.

Lemma with_directory_self (w : World) p : p ∈ dirs (with_directory p w).
Proof. rewrite <-(take_ge p (length p)) at 1 by done. apply with_directory_take. Qed.

Lemma with_connection_present (w : World) p q :
  ¬ missing w q → ¬ missing (with_connection p w) q.
Proof.
  intros Hq [Hdir Hfile]. apply Hq. split; [done|]. simpl in Hfile.
  destruct (decide (p = q)) as [->|Hne].
  - by rewrite lookup_insert_eq in Hfile.
  - by rewrite lookup_insert_ne in Hfile.
Qed.

Lemma with_connection_open (w : World) p :
  open_on (with_connection p w) (length (conns w)) p.
Proof. unfold open_on. simpl. by rewrite lookup_app_r, Nat.sub_diag by done. Qed.

Lemma with_connection_open_old (w : World) p conn q :
  open_on w conn q → open_on (with_connection p w) conn q.
Proof. unfold open_on. simpl. intros Hq. by apply lookup_app_l_Some. Qed.

Section opening.
Context `{Platform}.

Lemma default_factory_refuses (self : MultiDiskStore.t) collection (w : World) :
  MultiDiskStore._auto_create self = false →
  missing w (cache_directory self collection) →
  ∃ msg, MultiDiskStore.default_connection_factory_body self collection w
         = (Raise (ValueError msg), w).
Proof.
  intros Hauto Hmiss. eexists.
  unfold MultiDiskStore.default_connection_factory_body, mbind, M_bind.
  rewrite Path_exists_missing by done. simpl. by rewrite Hauto.
Qed.

Lemma default_factory_creates (self : MultiDiskStore.t) collection (w : World) :
  MultiDiskStore._auto_create self = true →
  missing w (cache_directory self collection) →
  MultiDiskStore.default_connection_factory_body self collection w
  = (Ok (length (conns w)),
     with_connection (Path_div (cache_directory self collection) _DB_FILENAME)
       (with_directory (cache_directory self collection) w)).
Proof.
  intros Hauto Hmiss.
  unfold MultiDiskStore.default_connection_factory_body, mbind, M_bind.
  rewrite Path_exists_missing by done. simpl. by rewrite Hauto.
Qed.

Lemma default_factory_opens (self : MultiDiskStore.t) collection (w : World) :
  ¬ missing w (cache_directory self collection) →
  MultiDiskStore.default_connection_factory_body self collection w
  = (Ok (length (conns w)),
     with_connection (Path_div (cache_directory self collection) _DB_FILENAME) w).
Proof.
  intros Hthere.
  unfold MultiDiskStore.default_connection_factory_body, mbind, M_bind.
  by rewrite Path_exists_present.
Qed.

Lemma DiskStore_init_refuses adapter directory max_size default_collection
    (w : World) :
  DiskStore.directory_truthy directory = true →
  missing w (DiskStore.to_Path directory) →
  ∃ msg, DiskStore.__init__ adapter None (Some directory) max_size
           default_collection false w = (Raise (ValueError msg), w).
Proof.
  intros Htrue Hmiss. eexists. unfold DiskStore.__init__.
  rewrite bool_decide_false by (by intros [[? [=]] _]).
  rewrite bool_decide_false by (by intros [_ [=]]).
  rewrite Htrue. unfold mbind, M_bind.
  by rewrite Path_exists_missing.
Qed.

Lemma DiskStore_init_creates adapter directory max_size default_collection
    (w : World) :
  DiskStore.directory_truthy directory = true →
  missing w (DiskStore.to_Path directory) →
  ∃ self,
    DiskStore.__init__ adapter None (Some directory) max_size
      default_collection true w
    = (Ok self,
       with_connection (Path_div (DiskStore.to_Path directory) _DB_FILENAME)
         (with_directory (DiskStore.to_Path directory) w))
    ∧ DiskStore._conn self = Some (length (conns w))
    ∧ DiskStore._client_provided_by_user self = false.
Proof.
  intros Htrue Hmiss. eexists. unfold DiskStore.__init__.
  rewrite bool_decide_false by (by intros [[? [=]] _]).
  rewrite bool_decide_false by (by intros [_ [=]]).
  rewrite Htrue. unfold mbind, M_bind.
  by rewrite Path_exists_missing.
Qed.

(** C8 — Where nothing exists at the target directory, opening with
    [auto_create=False] raises the [ValueError] that is the specification's
    [ConfigurationError] and leaves the world as it was, so that the
    directory is not made; opening with [auto_create=True] makes the
    directory and every directory above it.  This holds of
    [DiskStore.__init__] and of the default connection factory of
    [MultiDiskStore]. *)
Theorem C8_missing_directory adapter directory max_size default_collection
    (multi : MultiDiskStore.t) collection (w : World) :
  DiskStore.directory_truthy directory = true →
  missing w (DiskStore.to_Path directory) →
  MultiDiskStore._connection_factory multi
    = MultiDiskStore.default_connection_factory →
  missing w (cache_directory multi collection) →
  (∃ e, ConfigurationError e
      ∧ DiskStore.__init__ adapter None (Some directory) max_size
          default_collection false w = (Raise e, w))
  ∧ (∃ self w',
      DiskStore.__init__ adapter None (Some directory) max_size
        default_collection true w = (Ok self, w')
      ∧ ∀ n, take n (DiskStore.to_Path directory) ∈ dirs w')
  ∧ (MultiDiskStore._auto_create multi = false →
     ∃ e, ConfigurationError e
       ∧ MultiDiskStore.call_connection_factory multi collection w = (Raise e, w))
  ∧ (MultiDiskStore._auto_create multi = true →
     ∃ conn w',
       MultiDiskStore.call_connection_factory multi collection w = (Ok conn, w')
       ∧ ∀ n, take n (cache_directory multi collection) ∈ dirs w').
Proof.
  intros Htrue Hmiss Hfactory Hmiss'. split_and!.
  - destruct (DiskStore_init_refuses adapter directory max_size
      default_collection w Htrue Hmiss) as [msg Hinit].
    exists (ValueError msg). split; [by exists msg|done].
  - destruct (DiskStore_init_creates adapter directory max_size
      default_collection w Htrue Hmiss) as (self & Hinit & _).
    eexists _, _. split; [done|]. intros n. apply with_directory_take.
  - intros Hauto. unfold MultiDiskStore.call_connection_factory.
    rewrite Hfactory.
    destruct (default_factory_refuses multi collection w Hauto Hmiss')
      as [msg Hrun].
    exists (ValueError msg). split; [by exists msg|done].
  - intros Hauto. unfold MultiDiskStore.call_connection_factory.
    rewrite Hfactory, default_factory_creates by done.
    eexists _, _. split; [done|]. intros n. apply with_directory_take.
Qed.

End opening.

Lemma C8_missing_directory_witness :
  let directory := DiskStore.dir_str "/srv/kv" in
  let multi := Posix.multi_store None in
  let w := Posix.boot in
  (DiskStore.directory_truthy directory = true
   ∧ missing w ["srv"; "kv"]
   ∧ MultiDiskStore._connection_factory multi
     = MultiDiskStore.default_connection_factory
   ∧ missing w ["c"])
  ∧ (∃ e, ConfigurationError e
      ∧ DiskStore.__init__ Posix.adapter None (Some directory) None None false w
        = (Raise e, w))
  ∧ (∃ self w',
      DiskStore.__init__ Posix.adapter None (Some directory) None None true w
        = (Ok self, w')
      ∧ ∀ n, take n ["srv"; "kv"] ∈ dirs w')
  ∧ (MultiDiskStore._auto_create multi = false →
     ∃ e, ConfigurationError e
       ∧ MultiDiskStore.call_connection_factory multi "c" w = (Raise e, w))
  ∧ (MultiDiskStore._auto_create multi = true →
     ∃ conn w',
       MultiDiskStore.call_connection_factory multi "c" w = (Ok conn, w')
       ∧ ∀ n, take n ["c"] ∈ dirs w').
Proof.
  intros directory multi w.
  assert (H1 : DiskStore.directory_truthy directory = true) by reflexivity.
  assert (H2 : missing w ["srv"; "kv"]) by (split; [compute_done|reflexivity]).
  assert (H3 : MultiDiskStore._connection_factory multi
               = MultiDiskStore.default_connection_factory) by reflexivity.
  assert (H4 : missing w ["c"]) by (split; [compute_done|reflexivity]).
  split; [done|].
  exact (C8_missing_directory Posix.adapter directory None None multi "c" w
           H1 H2 H3 H4).
Defined.

(** ** The collection router *)

Lemma MultiDiskStore_get_open `{Platform} (self : MultiDiskStore.t)
    (w : World) conn p key collection :
  MultiDiskStore._conn self !! collection = Some conn → open_on w conn p →
  MultiDiskStore._get_managed_entry self key collection w
  = (entry_of_row (MultiDiskStore._serialization_adapter self)
       (_sqlite_get_with_expire (kv_of w p) key), w).
Proof.
  intros Hconn Hopen.
  unfold MultiDiskStore._get_managed_entry, MultiDiskStore.get_conn, entry_of_row.
  rewrite Hconn. unfold mbind, M_bind, mret, M_ret.
  rewrite (query_open _ _ p) by done.
  destruct (_sqlite_get_with_expire _ _) as [[s|] expire_epoch]; [|done].
  unfold lift. destruct (load_json _ s); [|done].
  destruct expire_epoch as [t|]; [|done].
  destruct (truthy (Some t)); [|done]. by destruct (fromtimestamp t).
Qed.

(** A collection that the base class has set up is not set up again: the
    factory is not called, and the store and the world stay as they are. *)
Lemma setup_collection_again `{Platform} (self : MultiDiskStore.t) collection
    (w : World) :
  collection ∈ MultiDiskStore._setup_collection_complete self →
  MultiDiskStore.setup_collection self collection w = (Ok self, w).
Proof.
  intros Hdone. unfold MultiDiskStore.setup_collection.
  by rewrite bool_decide_true.
Qed.

Section router.
Context `{Platform}.

(** The default factory, where it may create directories, opens a new
    connection on the database file of the collection, and the directory of
    the collection is there afterwards. *)
Lemma default_factory_run (self : MultiDiskStore.t) collection (w : World) :
  MultiDiskStore._auto_create self = true →
  ∃ w',
    MultiDiskStore.default_connection_factory_body self collection w
      = (Ok (length (conns w)), w')
    ∧ conns w' = conns w ++ [{| db_path := database_of self collection;
                                is_open := true |}]
    ∧ ¬ missing w' (cache_directory self collection).
Proof.
  intros Hauto.
  destruct (decide (missing w (cache_directory self collection)))
    as [Hmiss|Hthere].
  - eexists. rewrite default_factory_creates by done. split_and!; [done..|].
    apply with_connection_present. intros [Hdir _]. apply Hdir.
    apply with_directory_self.
  - eexists. rewrite default_factory_opens by done. split_and!; [done..|].
    by apply with_connection_present.
Qed.

(** C6 — The router holds one handle per collection name, not per
    sanitized name: for two distinct names that sanitize to the same string,
    [_setup_collection] gets two distinct connections from the default
    factory, both open on the one database file of the sanitized name, and
    keeps each under its own name.  Later references to either name use the
    connection held under that name and call no factory: a read leaves the
    world as it is, and both names read the same table. *)
Theorem C6_one_handle_per_collection_name (self : MultiDiskStore.t) c1 c2
    (w : World) key :
  MultiDiskStore._connection_factory self
    = MultiDiskStore.default_connection_factory →
  MultiDiskStore._auto_create self = true →
  c1 ≠ c2 →
  _sanitize_collection_for_filesystem c1 = _sanitize_collection_for_filesystem c2 →
  ∃ self1 w1 self2 w2 h1 h2,
    MultiDiskStore._setup_collection self c1 w = (Ok self1, w1)
    ∧ MultiDiskStore._setup_collection self1 c2 w1 = (Ok self2, w2)
    ∧ MultiDiskStore._conn self2 !! c1 = Some h1
    ∧ MultiDiskStore._conn self2 !! c2 = Some h2
    ∧ h1 ≠ h2
    ∧ open_on w2 h1 (database_of self c1)
    ∧ open_on w2 h2 (database_of self c1)
    ∧ (∀ w', MultiDiskStore.get_conn self2 c1 w' = (Ok h1, w')
             ∧ MultiDiskStore.get_conn self2 c2 w' = (Ok h2, w'))
    ∧ MultiDiskStore._get_managed_entry self2 key c1 w2
      = (entry_of_row (MultiDiskStore._serialization_adapter self)
           (_sqlite_get_with_expire (kv_of w2 (database_of self c1)) key), w2)
    ∧ MultiDiskStore._get_managed_entry self2 key c2 w2
      = (entry_of_row (MultiDiskStore._serialization_adapter self)
           (_sqlite_get_with_expire (kv_of w2 (database_of self c1)) key), w2).
Proof.
  intros Hfactory Hauto Hne Hsan.
  destruct (default_factory_run self c1 w Hauto)
    as (w1 & Hrun1 & Hconns1 & Hthere1).
  set (self1 := MultiDiskStore.set_conn <[c1 := length (conns w)]> self).
  assert (Hdb : database_of self1 c2 = database_of self c1).
  { unfold database_of, cache_directory. simpl. by rewrite Hsan. }
  assert (Hrun2 :
    MultiDiskStore.default_connection_factory_body self1 c2 w1
    = (Ok (length (conns w1)), with_connection (database_of self c1) w1)).
  { rewrite default_factory_opens, <-Hdb; [done|].
    unfold cache_directory. simpl. by rewrite <-Hsan. }
  set (self2 := MultiDiskStore.set_conn <[c2 := length (conns w1)]> self1).
  set (w2 := with_connection (database_of self c1) w1).
  assert (Hlen : length (conns w1) = S (length (conns w))).
  { rewrite Hconns1, length_app. simpl. lia. }
  assert (Hc1 : MultiDiskStore._conn self2 !! c1 = Some (length (conns w))).
  { simpl. rewrite lookup_insert_ne by done. by rewrite lookup_insert_eq. }
  assert (Hc2 : MultiDiskStore._conn self2 !! c2 = Some (length (conns w1))).
  { simpl. by rewrite lookup_insert_eq. }
  assert (Ho1 : open_on w2 (length (conns w)) (database_of self c1)).
  { apply with_connection_open_old. unfold open_on.
    by rewrite Hconns1, lookup_app_r, Nat.sub_diag. }
  assert (Ho2 : open_on w2 (length (conns w1)) (database_of self c1)).
  { apply with_connection_open. }
  exists self1, w1, self2, w2, (length (conns w)), (length (conns w1)).
  split_and!; try done.
  - unfold MultiDiskStore._setup_collection,
      MultiDiskStore.call_connection_factory, mbind, M_bind.
    by rewrite Hfactory, Hrun1.
  - unfold MultiDiskStore._setup_collection,
      MultiDiskStore.call_connection_factory, mbind, M_bind.
    simpl. by rewrite Hfactory, Hrun2.
  - lia.
  - intros w'. unfold MultiDiskStore.get_conn. by rewrite Hc1, Hc2.
  - by rewrite (MultiDiskStore_get_open _ _ _ (database_of self c1) _ _ Hc1 Ho1).
  - by rewrite (MultiDiskStore_get_open _ _ _ (database_of self c1) _ _ Hc2 Ho2).
Qed.

End router.

Lemma C6_one_handle_per_collection_name_witness :
  let self := Posix.router in
  let w := Posix.boot in
  let db := ["base"; "ab"; "store.db"] in
  (MultiDiskStore._connection_factory self
     = MultiDiskStore.default_connection_factory
   ∧ MultiDiskStore._auto_create self = true
   ∧ "a/b" ≠ "ab"
   ∧ _sanitize_collection_for_filesystem "a/b"
     = _sanitize_collection_for_filesystem "ab")
  ∧ ∃ self1 w1 self2 w2 h1 h2,
      MultiDiskStore._setup_collection self "a/b" w = (Ok self1, w1)
      ∧ MultiDiskStore._setup_collection self1 "ab" w1 = (Ok self2, w2)
      ∧ MultiDiskStore._conn self2 !! "a/b" = Some h1
      ∧ MultiDiskStore._conn self2 !! "ab" = Some h2
      ∧ h1 ≠ h2
      ∧ open_on w2 h1 db
      ∧ open_on w2 h2 db
      ∧ (∀ w', MultiDiskStore.get_conn self2 "a/b" w' = (Ok h1, w')
               ∧ MultiDiskStore.get_conn self2 "ab" w' = (Ok h2, w'))
      ∧ MultiDiskStore._get_managed_entry self2 "k" "a/b" w2
        = (entry_of_row Posix.adapter
             (_sqlite_get_with_expire (kv_of w2 db) "k"), w2)
      ∧ MultiDiskStore._get_managed_entry self2 "k" "ab" w2
        = (entry_of_row Posix.adapter
             (_sqlite_get_with_expire (kv_of w2 db) "k"), w2).
Proof.
  intros self w db.
  assert (H1 : MultiDiskStore._connection_factory self
               = MultiDiskStore.default_connection_factory) by reflexivity.
  assert (H2 : MultiDiskStore._auto_create self = true) by reflexivity.
  assert (H3 : "a/b" ≠ "ab") by discriminate.
  assert (H4 : _sanitize_collection_for_filesystem "a/b"
               = _sanitize_collection_for_filesystem "ab") by reflexivity.
  split; [done|].
  exact (C6_one_handle_per_collection_name self "a/b" "ab" w "k" H1 H2 H3 H4).
Defined.

(** Two collection names with one sanitized name: the router holds two
    handles for it. *)
Lemma C6_counterexample :
  _sanitize_collection_for_filesystem "a/b" = "ab"
  ∧ _sanitize_collection_for_filesystem "ab" = "ab"
  ∧ ∃ self1 w1 self2 w2,
      MultiDiskStore._setup_collection Posix.router "a/b" Posix.boot
        = (Ok self1, w1)
      ∧ MultiDiskStore._setup_collection self1 "ab" w1 = (Ok self2, w2)
      ∧ MultiDiskStore._conn self2 !! "a/b" = Some 0%nat
      ∧ MultiDiskStore._conn self2 !! "ab" = Some 1%nat
      ∧ open_on w2 0%nat ["base"; "ab"; "store.db"]
      ∧ open_on w2 1%nat ["base"; "ab"; "store.db"].
Proof.
  split; [done|]. split; [done|]. eexists _, _, _, _.
  split; [done|]. split; [done|]. by split_and!.
Qed.

(** ** The size bound after a put *)

(** With a positive bound configured, [DiskStore._put_managed_entry] leaves
    the table of its database within the bound, in the size that SQLite
    measures. *)
Lemma DiskStore_put_within_bound now now' (self : DiskStore.t) (w : World)
    conn p key collection entry max_size :
  DiskStore._conn self = Some conn → open_on w conn p →
  DiskStore._max_size self = Some max_size → max_size > 0 →
  ∃ w',
    DiskStore._put_managed_entry now now' self key collection entry w
      = (Ok tt, w')
    ∧ SUM_LENGTH (kv_of w' p) ≤ max_size.
Proof.
  intros Hconn Hopen Hmax Hpos. eexists.
  rewrite (DiskStore_put_open _ _ _ _ conn p) by done. split; [done|].
  rewrite kv_of_insert, Hmax. by apply put_effect_within_bound.
Qed.

(** * Further properties of the helpers of [store.py] *)

(** ** Reads, writes and deletes on the table *)

Lemma get_present (t : table) key :
  key ∈ kv.key <$> t → (_sqlite_get_with_expire t key).1 ≠ None.
Proof.
  induction t as [|r t IH]; [by intros ?%elem_of_nil|].
  destruct (decide (kv.key r = key)) as [<-|Hne].
  - by rewrite get_cons_eq.
  - rewrite get_cons_ne by done. rewrite fmap_cons, elem_of_cons.
    intros [?|?]; [congruence|by apply IH].
Qed.

Lemma get_None_absent (t : table) key :
  (_sqlite_get_with_expire t key).1 = None → key ∉ kv.key <$> t.
Proof. intros Hget Hin. by apply (get_present t key). Qed.

Lemma DELETE_WHERE_key_absent (t : table) key :
  key ∉ kv.key <$> t → DELETE_WHERE (λ r, kv.key r = key) t = t.
Proof.
  intros Hk. unfold DELETE_WHERE. apply filter_all, Forall_forall.
  intros r Hr <-. apply Hk. by apply list_elem_of_fmap_2.
Qed.

Lemma DELETE_WHERE_key_gone (t : table) key :
  key ∉ kv.key <$> DELETE_WHERE (λ r, kv.key r = key) t.
Proof.
  unfold DELETE_WHERE.
  by intros (r & -> & [Hr _]%list_elem_of_filter)%list_elem_of_fmap.
Qed.

Lemma get_DELETE_WHERE_ne (t : table) key key' :
  key' ≠ key →
  _sqlite_get_with_expire (DELETE_WHERE (λ r, kv.key r = key) t) key'
  = _sqlite_get_with_expire t key'.
Proof.
  intros Hne. unfold _sqlite_get_with_expire, DELETE_WHERE.
  rewrite list_filter_filter.
  erewrite (list_filter_iff _ (λ r, kv.key r = key')); [done|].
  intros r. split; [by intros [? _]|]. intros <-. by split.
Qed.

Lemma _sqlite_delete_flag (conn : table) key :
  (_sqlite_delete conn key).1 = bool_decide (key ∈ kv.key <$> conn).
Proof.
  unfold _sqlite_delete, COUNT. simpl.
  destruct (decide (key ∈ kv.key <$> conn)) as [Hin|Hout].
  - rewrite (bool_decide_true (key ∈ _)) by done.
    apply bool_decide_true.
    apply list_elem_of_fmap in Hin as (r & -> & Hr).
    pose proof (length_filter_lt (λ r0, ¬ kv.key r0 = kv.key r) conn r Hr) as Hlt.
    unfold DELETE_WHERE. specialize (Hlt (λ Hn, Hn eq_refl)). lia.
  - rewrite (bool_decide_false (key ∈ _)) by done.
    apply bool_decide_false. rewrite DELETE_WHERE_key_absent by done. lia.
Qed.

(** X1 — A value written by [_sqlite_set] is read back by
    [_sqlite_get_with_expire] under its key, with the expiration
    [now + expire] when a ttl was given and none otherwise; the call returns
    [True], and the reads of all other keys are as before. *)
Theorem X1_set_then_get now (conn : table) key value expire :
  let result := _sqlite_set now conn key value expire in
  result.1 = true
  ∧ _sqlite_get_with_expire result.2 key
    = (Some value, (λ expire, now + expire) <$> expire)
  ∧ ∀ key', key' ≠ key →
      _sqlite_get_with_expire result.2 key' = _sqlite_get_with_expire conn key'.
Proof.
  simpl. split; [done|]. split.
  - rewrite get_INSERT_OR_REPLACE_eq. by destruct expire.
  - intros key' Hne. by apply get_INSERT_OR_REPLACE_ne.
Qed.

(** X2 — [_sqlite_delete] returns [True] exactly when a read of the key
    finds a row; after it the read of the key finds none, and the reads of
    all other keys are as before. *)
Theorem X2_delete_removes_the_key (conn : table) key :
  let result := _sqlite_delete conn key in
  (result.1 = true ↔ (_sqlite_get_with_expire conn key).1 ≠ None)
  ∧ _sqlite_get_with_expire result.2 key = (None, None)
  ∧ ∀ key', key' ≠ key →
      _sqlite_get_with_expire result.2 key' = _sqlite_get_with_expire conn key'.
Proof.
  intros result. split_and!.
  - unfold result. rewrite _sqlite_delete_flag, bool_decide_eq_true. split.
    + apply get_present.
    + intros Hget. destruct (decide (key ∈ kv.key <$> conn)) as [|Hout]; [done|].
      destruct Hget. by rewrite get_absent.
  - apply get_absent, DELETE_WHERE_key_gone.
  - intros key' Hne. by apply get_DELETE_WHERE_ne.
Qed.

(** X3 — Deleting a key that a read does not find is no error: it returns
    [False] and leaves the table as it is. *)
Theorem X3_delete_of_a_missing_key (conn : table) key :
  _sqlite_get_with_expire conn key = (None, None) →
  _sqlite_delete conn key = (false, conn).
Proof.
  intros Hget. assert (Hout : key ∉ kv.key <$> conn).
  { apply get_None_absent. by rewrite Hget. }
  rewrite (surjective_pairing (_sqlite_delete conn key)).
  rewrite _sqlite_delete_flag, bool_decide_false by done.
  simpl. by rewrite DELETE_WHERE_key_absent.
Qed.

Lemma X3_delete_of_a_missing_key_witness :
  let conn := [kv.Row 1 "a" "xx" None] in
  _sqlite_get_with_expire conn "b" = (None, None)
  ∧ _sqlite_delete conn "b" = (false, conn).
Proof.
  intros conn.
  assert (H1 : _sqlite_get_with_expire conn "b" = (None, None)) by reflexivity.
  split; [exact H1|]. exact (X3_delete_of_a_missing_key conn "b" H1).
Defined.

(** ** Eviction *)

Lemma kv_wf_key_inj (t : table) r r' :
  kv_wf t → r ∈ t → r' ∈ t → kv.key r = kv.key r' → r = r'.
Proof.
  intros [_ Hkey] [i Hi]%list_elem_of_lookup [j Hj]%list_elem_of_lookup Heq.
  assert (i = j) as ->; [|congruence].
  apply (NoDup_lookup _ _ _ (kv.key r) Hkey).
  - by rewrite list_lookup_fmap, Hi.
  - by rewrite list_lookup_fmap, Hj, Heq.
Qed.

Lemma _sqlite_evict_no_expired now (conn : table) max_size :
  Forall (λ r, ¬ expired now r) (_sqlite_evict now conn max_size).
Proof.
  apply Forall_forall. intros r Hr.
  assert (r ∈ DELETE_WHERE (expired now) conn) as [Hlive _]%list_elem_of_filter;
    [|done].
  eapply elem_of_sublist; [done|]. apply trim_loop_sublist.
Qed.

Lemma _sqlite_evict_fits now (conn : table) max_size :
  SUM_LENGTH (DELETE_WHERE (expired now) conn) ≤ max_size →
  _sqlite_evict now conn max_size = DELETE_WHERE (expired now) conn.
Proof.
  intros Hfits. unfold _sqlite_evict. rewrite trim_loop_eq.
  rewrite decide_False; [done|]. lia.
Qed.

Lemma proportional_trim_suffix size bound (t : table) :
  Spec.proportional_trim_by size bound t `suffix_of` t.
Proof.
  remember (length t) as m eqn:Hm. revert t Hm.
  induction (lt_wf m) as [m _ IH]. intros t ->.
  rewrite proportional_trim_eq. case_decide as Hgo; [|done].
  etrans; [|apply suffix_drop]. eapply IH; [|done].
  unfold Spec.delete_oldest, Spec.batch. rewrite length_drop.
  destruct t; [by destruct Hgo|]. simpl. lia.
Qed.

Lemma last_drop_lt {A} (l : list A) k :
  (k < length l)%nat → last (drop k l) = last l.
Proof.
  intros Hk. rewrite !last_lookup, lookup_drop, length_drop. f_equal. lia.
Qed.

Lemma batch_lt (n : nat) : (2 ≤ n)%nat → (Spec.batch n < n)%nat.
Proof.
  intros Hn. unfold Spec.batch.
  pose proof (Nat.div_lt n 10 ltac:(lia) ltac:(lia)). lia.
Qed.

Lemma SUM_LENGTH_singleton r : SUM_LENGTH [r] = row_size r.
Proof. rewrite SUM_LENGTH_cons. unfold SUM_LENGTH. simpl. lia. Qed.

(** The proportional trim keeps the last row, when that row alone fits the
    bound. *)
Lemma proportional_trim_last bound (t : table) r :
  row_size r ≤ bound → last t = Some r →
  last (Spec.proportional_trim_by SUM_LENGTH bound t) = Some r.
Proof.
  intros Hfits. remember (length t) as m eqn:Hm. revert t Hm.
  induction (lt_wf m) as [m _ IH]. intros t -> Hlast.
  rewrite proportional_trim_eq. case_decide as Hgo; [|done].
  destruct Hgo as [Hbig Hrows].
  assert (2 ≤ length t)%nat as Hlen.
  { destruct t as [|r1 [|r2 t]]; [done| |simpl; lia].
    simpl in Hlast. injection Hlast as ->.
    rewrite SUM_LENGTH_singleton in Hbig. lia. }
  pose proof (batch_lt _ Hlen) as Hbatch.
  eapply IH; [|done|].
  - unfold Spec.delete_oldest. rewrite length_drop. unfold Spec.batch in *. lia.
  - unfold Spec.delete_oldest. by rewrite last_drop_lt.
Qed.

Lemma _sqlite_evict_keeps_newest now (conn : table) r max_size :
  kv_wf (conn ++ [r]) → ¬ expired now r → row_size r ≤ max_size →
  last (_sqlite_evict now (conn ++ [r]) max_size) = Some r.
Proof.
  intros Hwf Hlive Hfits. unfold _sqlite_evict.
  rewrite trim_loop_proportional_trim
    by (eapply kv_wf_sublist; [apply DELETE_WHERE_sublist|done]).
  apply proportional_trim_last; [done|].
  unfold DELETE_WHERE. rewrite filter_app, filter_cons_True by done.
  by rewrite filter_nil, last_snoc.
Qed.

(** X4 — After [_sqlite_evict] no row is left whose [expire_at] is set and
    less than the current time, whatever the bound; the read of the key of
    such a row finds nothing. *)
Theorem X4_evict_purges_expired_rows now (conn : table) max_size r :
  kv_wf conn → r ∈ conn → expired now r →
  Forall (λ r', ¬ expired now r') (_sqlite_evict now conn max_size)
  ∧ _sqlite_get_with_expire (_sqlite_evict now conn max_size) (kv.key r)
    = (None, None).
Proof.
  intros Hwf Hr Hexp. split; [apply _sqlite_evict_no_expired|].
  apply get_absent. intros (r' & Hkey & Hr')%list_elem_of_fmap.
  assert (r = r') as <-.
  { apply (kv_wf_key_inj conn); [done..| |done].
    eapply elem_of_sublist; [done|]. apply _sqlite_evict_sublist. }
  pose proof (_sqlite_evict_no_expired now conn max_size) as Hall.
  rewrite Forall_forall in Hall. by apply (Hall r).
Qed.

Lemma X4_evict_purges_expired_rows_witness :
  let conn := [kv.Row 1 "a" "xx" (Some 50); kv.Row 2 "b" "yyyy" None] in
  (kv_wf conn ∧ kv.Row 1 "a" "xx" (Some 50) ∈ conn
   ∧ expired 100 (kv.Row 1 "a" "xx" (Some 50)))
  ∧ Forall (λ r', ¬ expired 100 r') (_sqlite_evict 100 conn 1000)
  ∧ _sqlite_get_with_expire (_sqlite_evict 100 conn 1000) "a" = (None, None).
Proof.
  intros conn.
  assert (H1 : kv_wf conn) by compute_done.
  assert (H2 : kv.Row 1 "a" "xx" (Some 50) ∈ conn) by compute_done.
  assert (H3 : expired 100 (kv.Row 1 "a" "xx" (Some 50))) by compute_done.
  split; [done|].
  exact (X4_evict_purges_expired_rows 100 conn 1000 _ H1 H2 H3).
Defined.

(** X5 — Where the rows that are not expired fit the bound, by the sum of
    their character lengths, [_sqlite_evict] deletes the expired rows and
    nothing else; where, besides, no row is expired, it leaves the table as
    it is. *)
Theorem X5_evict_within_bound_only_sweeps now (conn : table) max_size :
  approximate_size (DELETE_WHERE (expired now) conn) ≤ max_size →
  _sqlite_evict now conn max_size = DELETE_WHERE (expired now) conn
  ∧ (∀ r, r ∈ _sqlite_evict now conn max_size ↔ r ∈ conn ∧ ¬ expired now r)
  ∧ (Forall (λ r, ¬ expired now r) conn →
     _sqlite_evict now conn max_size = conn).
Proof.
  intros Hfits.
  pose proof (SUM_LENGTH_bounds (DELETE_WHERE (expired now) conn)) as Hsize.
  rewrite _sqlite_evict_fits by lia.
  split; [done|]. split.
  - intros r. unfold DELETE_WHERE. rewrite list_elem_of_filter. tauto.
  - intros Hlive. by apply filter_all.
Qed.

Lemma X5_evict_within_bound_only_sweeps_witness :
  let conn := [kv.Row 1 "a" "xx" (Some 50); kv.Row 2 "b" "yyyy" None] in
  approximate_size (DELETE_WHERE (expired 100) conn) ≤ 5
  ∧ _sqlite_evict 100 conn 5 = [kv.Row 2 "b" "yyyy" None].
Proof.
  intros conn.
  assert (H1 : approximate_size (DELETE_WHERE (expired 100) conn) ≤ 5)
    by compute_done.
  split; [exact H1|].
  exact (proj1 (X5_evict_within_bound_only_sweeps 100 conn 5 H1)).
Defined.

(** X6 — [_sqlite_evict] trims from the old end only: on a table in rowid
    order, what it leaves is a suffix of the swept table, so that a row is
    never trimmed while an older one stays. *)
Theorem X6_evict_leaves_a_suffix now (conn : table) max_size :
  kv_wf conn →
  _sqlite_evict now conn max_size `suffix_of` DELETE_WHERE (expired now) conn.
Proof.
  intros Hwf. unfold _sqlite_evict.
  rewrite trim_loop_proportional_trim
    by (eapply kv_wf_sublist; [apply DELETE_WHERE_sublist|done]).
  apply proportional_trim_suffix.
Qed.

Lemma X6_evict_leaves_a_suffix_witness :
  let conn := [kv.Row 1 "a" "xx" (Some 50); kv.Row 2 "b" "yyyy" None;
               kv.Row 4 "c" "z" None; kv.Row 7 "d" "ww" None] in
  kv_wf conn
  ∧ _sqlite_evict 100 conn 6 `suffix_of` DELETE_WHERE (expired 100) conn.
Proof.
  intros conn. assert (H1 : kv_wf conn) by compute_done.
  split; [exact H1|]. exact (X6_evict_leaves_a_suffix 100 conn 6 H1).
Defined.

(** X7 — The newest row survives [_sqlite_evict]: when the last row of a
    table in rowid order is not expired and fits the bound by itself, by
    [LENGTH(key) + LENGTH(value)], it is still the last row afterwards, and
    the read of its key returns it. *)
Theorem X7_evict_keeps_the_newest_row now (conn : table) r max_size :
  kv_wf (conn ++ [r]) → ¬ expired now r → row_size r ≤ max_size →
  last (_sqlite_evict now (conn ++ [r]) max_size) = Some r
  ∧ _sqlite_get_with_expire (_sqlite_evict now (conn ++ [r]) max_size) (kv.key r)
    = (Some (kv.value r), kv.expire_at r).
Proof.
  intros Hwf Hlive Hfits.
  pose proof (_sqlite_evict_keeps_newest now conn r max_size Hwf Hlive Hfits)
    as Hlast.
  split; [done|]. apply get_row; [by apply kv_wf__sqlite_evict|].
  by eapply last_Some_elem_of.
Qed.

Lemma X7_evict_keeps_the_newest_row_witness :
  let conn := [kv.Row 1 "a" "xx" None; kv.Row 2 "b" "yyyy" None] in
  let r := kv.Row 5 "c" "zz" (Some 200) in
  (kv_wf (conn ++ [r]) ∧ ¬ expired 100 r ∧ row_size r ≤ 4)
  ∧ last (_sqlite_evict 100 (conn ++ [r]) 4) = Some r
  ∧ _sqlite_get_with_expire (_sqlite_evict 100 (conn ++ [r]) 4) "c"
    = (Some "zz", Some 200).
Proof.
  intros conn r.
  assert (H1 : kv_wf (conn ++ [r])) by compute_done.
  assert (H2 : ¬ expired 100 r) by compute_done.
  assert (H3 : row_size r ≤ 4) by compute_done.
  split; [done|]. exact (X7_evict_keeps_the_newest_row 100 conn r 4 H1 H2 H3).
Defined.

(** X8 — A second [_sqlite_evict] at the same time and under the same bound
    deletes nothing more. *)
Theorem X8_evict_twice now (conn : table) max_size :
  _sqlite_evict now (_sqlite_evict now conn max_size) max_size
  = _sqlite_evict now conn max_size.
Proof.
  destruct (_sqlite_evict_stops now conn max_size) as (_ & _ & _ & Hexit).
  set (t := _sqlite_evict now conn max_size) in *.
  unfold _sqlite_evict at 1. fold t.
  assert (DELETE_WHERE (expired now) t = t) as ->.
  { apply filter_all, _sqlite_evict_no_expired. }
  by rewrite trim_loop_step, Hexit.
Qed.

(** ** The primary key *)

Lemma length_DELETE_WHERE_key (t : table) key :
  NoDup (kv.key <$> t) → key ∈ kv.key <$> t →
  S (length (DELETE_WHERE (λ r, kv.key r = key) t)) = length t.
Proof.
  induction t as [|r t IH]; [by intros _ ?%elem_of_nil|].
  rewrite fmap_cons. intros [Hr Hnd]%NoDup_cons Hin.
  unfold DELETE_WHERE in *. destruct (decide (kv.key r = key)) as [Heq|Hne].
  - rewrite filter_cons_False by (intros Hn; by apply Hn).
    rewrite <-Heq in *. simpl. f_equal.
    pose proof (DELETE_WHERE_key_absent t (kv.key r) Hr) as Hsame.
    unfold DELETE_WHERE in Hsame. by rewrite Hsame.
  - rewrite filter_cons_True by done. simpl. f_equal. apply IH; [done|].
    apply elem_of_cons in Hin as [?|?]; [congruence|done].
Qed.

(** X9 — In every table that the helpers make of a new database, no two
    rows have the same key, and the read of the key of a stored row returns
    the value and the [expire_at] of that row. *)
Theorem X9_keys_are_unique (t : table) :
  kv_reachable t →
  NoDup (kv.key <$> t)
  ∧ Forall (λ r, _sqlite_get_with_expire t (kv.key r)
                 = (Some (kv.value r), kv.expire_at r)) t.
Proof.
  intros Hwf%kv_reachable_wf. split; [by destruct Hwf|].
  apply Forall_forall. intros r Hr. by apply get_row.
Qed.

Lemma X9_keys_are_unique_witness :
  let t1 := (_sqlite_set 5 [] "a" "x" None).2 in
  let t2 := (_sqlite_set 7 t1 "b" "y" (Some 3)).2 in
  let t3 := (_sqlite_set 9 t2 "a" "z" None).2 in
  kv_reachable t3
  ∧ NoDup (kv.key <$> t3)
  ∧ Forall (λ r, _sqlite_get_with_expire t3 (kv.key r)
                 = (Some (kv.value r), kv.expire_at r)) t3.
Proof.
  intros t1 t2 t3.
  assert (H1 : kv_reachable t3)
    by (apply reachable_set, reachable_set, reachable_set, reachable_new).
  split; [exact H1|]. exact (X9_keys_are_unique t3 H1).
Defined.

(** X10 — On a table with a primary key, [_sqlite_set] of a key that is
    stored leaves the number of rows as it is, and [_sqlite_set] of a key
    that is not stored adds one row. *)
Theorem X10_set_row_count now (conn : table) key value expire :
  kv_wf conn →
  COUNT (_sqlite_set now conn key value expire).2
  = if decide (key ∈ kv.key <$> conn) then COUNT conn else COUNT conn + 1.
Proof.
  intros [_ Hkey]. unfold COUNT. simpl. unfold INSERT_OR_REPLACE.
  rewrite length_app. simpl. case_decide as Hin.
  - pose proof (length_DELETE_WHERE_key conn key Hkey Hin). lia.
  - rewrite DELETE_WHERE_key_absent by done. lia.
Qed.

Lemma X10_set_row_count_witness :
  let conn := [kv.Row 1 "a" "xx" None; kv.Row 2 "b" "yyyy" None] in
  kv_wf conn
  ∧ COUNT (_sqlite_set 10 conn "a" "new" None).2 = 2
  ∧ COUNT (_sqlite_set 10 conn "c" "new" None).2 = 3.
Proof.
  intros conn. assert (H1 : kv_wf conn) by compute_done.
  split; [exact H1|]. split.
  - exact (X10_set_row_count 10 conn "a" "new" None H1).
  - exact (X10_set_row_count 10 conn "c" "new" None H1).
Defined.

(** * Further properties of [DiskStore] *)

Lemma DiskStore_delete_open (self : DiskStore.t) (w : World) conn p key
    collection :
  DiskStore._conn self = Some conn → open_on w conn p →
  DiskStore._delete_managed_entry self key collection w
  = (Ok (_sqlite_delete (kv_of w p) (compound_key collection key)).1,
     set_files
       <[p := (_sqlite_delete (kv_of w p) (compound_key collection key)).2]> w).
Proof.
  intros Hconn Hopen. unfold DiskStore._delete_managed_entry, DiskStore.get_conn.
  rewrite Hconn. unfold mbind, M_bind, mret, M_ret.
  by rewrite (execute_open _ _ p).
Qed.

(** A put is read back, where no positive bound is configured, or where
    the row fits the bound by itself and is not yet expired when the
    eviction pass reads the clock. *)
Lemma put_effect_get now now' max_size key value expire (db : table) :
  kv_wf db →
  (∀ m, max_size = Some m → m > 0 →
        LENGTH key + LENGTH value ≤ m
        ∧ ∀ e, expire = Some e → now' ≤ now + e) →
  _sqlite_get_with_expire (put_effect now now' max_size key value expire db) key
  = (Some value, (λ e, now + e) <$> expire).
Proof.
  intros Hwf Hfits.
  assert (Hset : _sqlite_get_with_expire
            (_sqlite_set now db key value expire).2 key
          = (Some value, (λ e, now + e) <$> expire)).
  { simpl. rewrite get_INSERT_OR_REPLACE_eq. by destruct expire. }
  unfold put_effect. destruct max_size as [m|]; [|done].
  case_bool_decide as Hpos; [|done].
  destruct (Hfits m eq_refl Hpos) as [Hsize Hlive].
  pose proof (kv_wf__sqlite_set now db key value expire Hwf) as Hwf'.
  simpl in *. unfold INSERT_OR_REPLACE in *.
  set (r := kv.Row (new_rowid db) key value _) in *.
  assert (Hlast : last (_sqlite_evict now'
            (DELETE_WHERE (λ r, kv.key r = key) db ++ [r]) m) = Some r).
  { apply _sqlite_evict_keeps_newest; [done| |done].
    unfold expired, r. simpl. destruct expire as [e|]; [|tauto].
    specialize (Hlive e eq_refl). lia. }
  rewrite (get_row _ r); [by destruct expire| |by eapply last_Some_elem_of].
  by apply kv_wf__sqlite_evict.
Qed.

(** X11 — What [DiskStore._put_managed_entry] writes,
    [DiskStore._get_managed_entry] reads back under the same collection and
    key: the text that the adapter dumped, with the expiration
    [now + ttl] of the write.  This holds where no positive bound is
    configured, and under a positive bound where the row fits it by itself
    and is not expired when the eviction pass runs. *)
Theorem X11_disk_store_put_then_get `{Platform} now now' (self : DiskStore.t)
    (w : World) conn p key collection entry :
  DiskStore._conn self = Some conn → open_on w conn p →
  kv_wf (kv_of w p) →
  (∀ m, DiskStore._max_size self = Some m → m > 0 →
        LENGTH (compound_key collection key)
        + LENGTH (dump_json (DiskStore._serialization_adapter self)
                    entry key collection) ≤ m
        ∧ ∀ e, ttl entry = Some e → now' ≤ now + e) →
  ∃ w',
    DiskStore._put_managed_entry now now' self key collection entry w
      = (Ok tt, w')
    ∧ DiskStore._get_managed_entry self key collection w'
      = (entry_of_row (DiskStore._serialization_adapter self)
           (Some (dump_json (DiskStore._serialization_adapter self)
                    entry key collection),
            (λ e, now + e) <$> ttl entry), w').
Proof.
  intros Hconn Hopen Hwf Hfits. eexists.
  rewrite (DiskStore_put_open _ _ _ _ conn p) by done. split; [done|].
  rewrite (DiskStore_get_open _ _ conn p) by done.
  by rewrite kv_of_insert, put_effect_get.
Qed.

Lemma X11_disk_store_put_then_get_witness :
  let self := Posix.disk_store (Some 8) in
  let w := Posix.world_with [kv.Row 1 "A::j" "old" None] in
  let entry := Posix.entry "v1" (Some 10) in
  (DiskStore._conn self = Some 0%nat ∧ open_on w 0%nat Posix.db
   ∧ kv_wf (kv_of w Posix.db)
   ∧ (∀ m, DiskStore._max_size self = Some m → m > 0 →
        LENGTH (compound_key "A" "k")
        + LENGTH (dump_json (DiskStore._serialization_adapter self)
                    entry "k" "A") ≤ m
        ∧ ∀ e, ttl entry = Some e → 6 ≤ 5 + e))
  ∧ ∃ w',
      DiskStore._put_managed_entry 5 6 self "k" "A" entry w = (Ok tt, w')
      ∧ DiskStore._get_managed_entry self "k" "A" w'
        = (entry_of_row Posix.adapter (Some "v1", Some 15), w').
Proof.
  intros self w entry.
  assert (H1 : DiskStore._conn self = Some 0%nat) by reflexivity.
  assert (H2 : open_on w 0%nat Posix.db) by reflexivity.
  assert (H3 : kv_wf (kv_of w Posix.db)) by compute_done.
  assert (H4 : ∀ m, DiskStore._max_size self = Some m → m > 0 →
        LENGTH (compound_key "A" "k")
        + LENGTH (dump_json (DiskStore._serialization_adapter self)
                    entry "k" "A") ≤ m
        ∧ ∀ e, ttl entry = Some e → 6 ≤ 5 + e).
  { intros m [= <-] _. split; [by vm_compute|]. intros e [= <-]. lia. }
  split; [done|].
  exact (X11_disk_store_put_then_get 5 6 self w 0%nat Posix.db "k" "A" entry
           H1 H2 H3 H4).
Defined.

(** X12 — [DiskStore._delete_managed_entry] returns [True] exactly when a
    row is stored under the compound key; after it the read of that
    collection and key is [None], and the reads under all other compound
    keys give what they gave before. *)
Theorem X12_disk_store_delete `{Platform} (self : DiskStore.t) (w : World)
    conn p key collection :
  DiskStore._conn self = Some conn → open_on w conn p →
  ∃ deleted w',
    DiskStore._delete_managed_entry self key collection w = (Ok deleted, w')
    ∧ (deleted = true
       ↔ (_sqlite_get_with_expire (kv_of w p) (compound_key collection key)).1
         ≠ None)
    ∧ DiskStore._get_managed_entry self key collection w' = (Ok None, w')
    ∧ ∀ key' collection',
        compound_key collection' key' ≠ compound_key collection key →
        (DiskStore._get_managed_entry self key' collection' w').1
        = (DiskStore._get_managed_entry self key' collection' w).1.
Proof.
  intros Hconn Hopen. eexists _, _.
  rewrite (DiskStore_delete_open _ _ conn p) by done. split; [done|].
  split_and!.
  - rewrite _sqlite_delete_flag, bool_decide_eq_true. split.
    + apply get_present.
    + intros Hget.
      destruct (decide (compound_key collection key
                        ∈ kv.key <$> kv_of w p)) as [|Hout]; [done|].
      destruct Hget. by rewrite get_absent.
  - rewrite (DiskStore_get_open _ _ conn p), kv_of_insert by done.
    simpl. by rewrite get_absent by apply DELETE_WHERE_key_gone.
  - intros key' collection' Hne.
    rewrite !(DiskStore_get_open _ _ conn p), kv_of_insert by done.
    simpl. by rewrite get_DELETE_WHERE_ne.
Qed.

Lemma X12_disk_store_delete_witness :
  let self := Posix.disk_store None in
  let w := Posix.world_with [kv.Row 1 "A::k" "v" None] in
  (DiskStore._conn self = Some 0%nat ∧ open_on w 0%nat Posix.db)
  ∧ ∃ deleted w',
      DiskStore._delete_managed_entry self "k" "A" w = (Ok deleted, w')
      ∧ (deleted = true
         ↔ (_sqlite_get_with_expire (kv_of w Posix.db) (compound_key "A" "k")).1
           ≠ None)
      ∧ DiskStore._get_managed_entry self "k" "A" w' = (Ok None, w')
      ∧ ∀ key' collection',
          compound_key collection' key' ≠ compound_key "A" "k" →
          (DiskStore._get_managed_entry self key' collection' w').1
          = (DiskStore._get_managed_entry self key' collection' w).1.
Proof.
  intros self w.
  assert (H1 : DiskStore._conn self = Some 0%nat) by reflexivity.
  assert (H2 : open_on w 0%nat Posix.db) by reflexivity.
  split; [done|].
  exact (X12_disk_store_delete self w 0%nat Posix.db "k" "A" H1 H2).
Defined.

(** ** The life of a connection *)

Lemma query_closed {A} (w : World) conn (f : table → A) :
  closed w conn → query conn f w = (Raise ProgrammingError, w).
Proof. intros [p Hc]. unfold query. by rewrite Hc. Qed.

Lemma execute_closed {A} (w : World) conn (f : table → A * table) :
  closed w conn → execute conn f w = (Raise ProgrammingError, w).
Proof. intros [p Hc]. unfold execute. by rewrite Hc. Qed.

Lemma set_conns_id (w : World) (f : list Connection → list Connection) :
  f (conns w) = conns w → set_conns f w = w.
Proof. destruct w as [d fs cs]. unfold set_conns. simpl. by intros ->. Qed.

Lemma _sqlite_close_open (w : World) conn p :
  open_on w conn p → closed (set_conns (alter close_connection conn) w) conn.
Proof.
  unfold open_on. intros Hopen. exists p. simpl.
  rewrite list_lookup_alter, decide_True by done. by rewrite Hopen.
Qed.

Lemma _sqlite_close_closed (w : World) conn :
  closed w conn → _sqlite_close conn w = (Ok tt, w).
Proof.
  intros [p Hc]. rewrite _sqlite_close_eq. f_equal. apply set_conns_id.
  apply list_eq. intros i. rewrite list_lookup_alter.
  case_decide; [subst i|done]. by rewrite Hc.
Qed.

Lemma present_set_files_insert (w : World) p q (t : table) :
  ¬ missing w p → ¬ missing (set_files <[q := t]> w) p.
Proof.
  intros Hp [Hdir Hfile]. apply Hp. split; [done|]. simpl in Hfile.
  destruct (decide (q = p)) as [->|Hne].
  - by rewrite lookup_insert_eq in Hfile.
  - by rewrite lookup_insert_ne in Hfile.
Qed.

Lemma kv_of_with_connection (w : World) p q :
  kv_of (with_connection p w) q = kv_of w q.
Proof.
  unfold kv_of. simpl. destruct (decide (p = q)) as [->|Hne].
  - rewrite lookup_insert_eq. by destruct (files w !! q).
  - by rewrite lookup_insert_ne.
Qed.

Section disk_store_life.
Context `{Platform}.

(** The store that [DiskStore.__init__] makes of a directory. *)
Lemma DiskStore_init_directory adapter directory max_size default_collection
    auto_create (w : World) :
  DiskStore.directory_truthy directory = true →
  auto_create = true ∨ ¬ missing w (DiskStore.to_Path directory) →
  ∃ w0,
    (w0 = w ∧ ¬ missing w (DiskStore.to_Path directory)
     ∨ w0 = with_directory (DiskStore.to_Path directory) w
       ∧ missing w (DiskStore.to_Path directory))
    ∧ DiskStore.__init__ adapter None (Some directory) max_size
        default_collection auto_create w
      = (Ok {| DiskStore._conn := Some (length (conns w));
               DiskStore._max_size := max_size;
               DiskStore._auto_create := auto_create;
               DiskStore._client_provided_by_user := false;
               DiskStore._serialization_adapter := adapter;
               DiskStore.default_collection := default_collection;
               DiskStore._exit_stack := [] |},
         with_connection
           (Path_div (DiskStore.to_Path directory) _DB_FILENAME) w0).
Proof.
  intros Htrue Hcan. unfold DiskStore.__init__.
  rewrite bool_decide_false by (by intros [[? [=]] _]).
  rewrite bool_decide_false by (by intros [_ [=]]).
  rewrite Htrue. unfold mbind, M_bind.
  destruct (decide (missing w (DiskStore.to_Path directory))) as [Hmiss|Hthere].
  - destruct Hcan as [->|?]; [|done]. eexists. split; [by right|].
    by rewrite Path_exists_missing.
  - eexists. split; [by left|]. by rewrite Path_exists_present.
Qed.

(** X13 — A [DiskStore] made of a directory owns its connection: [_setup]
    registers the close callback, and that callback, like [__del__], closes
    the connection while directories and database files stay as they are.
    After that, a read, a write and a delete through the store each raise
    [ProgrammingError] and change nothing, and [__del__] closes once more
    without error or effect. *)
Theorem X13_disk_store_closes_its_own_connection adapter directory max_size
    default_collection auto_create (w : World) :
  DiskStore.directory_truthy directory = true →
  auto_create = true ∨ ¬ missing w (DiskStore.to_Path directory) →
  ∃ self w1 self' w2 conn,
    DiskStore.__init__ adapter None (Some directory) max_size
      default_collection auto_create w = (Ok self, w1)
    ∧ DiskStore._conn self = Some conn
    ∧ open_on w1 conn (Path_div (DiskStore.to_Path directory) _DB_FILENAME)
    ∧ DiskStore._setup self w1 = (Ok self', w1)
    ∧ DiskStore._exit_stack self' = [DiskStore.close_own_connection]
    ∧ DiskStore.run_callback self' DiskStore.close_own_connection w1
      = (Ok tt, w2)
    ∧ DiskStore.__del__ self' w1 = (Ok tt, w2)
    ∧ closed w2 conn ∧ dirs w2 = dirs w1 ∧ files w2 = files w1
    ∧ (∀ key collection,
         DiskStore._get_managed_entry self' key collection w2
         = (Raise ProgrammingError, w2))
    ∧ (∀ now now' key collection entry,
         DiskStore._put_managed_entry now now' self' key collection entry w2
         = (Raise ProgrammingError, w2))
    ∧ (∀ key collection,
         DiskStore._delete_managed_entry self' key collection w2
         = (Raise ProgrammingError, w2))
    ∧ DiskStore.__del__ self' w2 = (Ok tt, w2).
Proof.
  intros Htrue Hcan.
  destruct (DiskStore_init_directory adapter directory max_size
    default_collection auto_create w Htrue Hcan) as (w0 & Hw0 & Hinit).
  set (db := Path_div (DiskStore.to_Path directory) _DB_FILENAME) in *.
  set (w1 := with_connection db w0) in *.
  set (conn := length (conns w)) in *.
  assert (Hopen : open_on w1 conn db).
  { assert (conn = length (conns w0)) as ->
      by (by destruct Hw0 as [[-> _]|[-> _]]).
    apply with_connection_open. }
  pose proof (_sqlite_close_open w1 conn db Hopen) as Hclosed.
  eexists _, w1, _, (set_conns (alter close_connection conn) w1), conn.
  split; [exact Hinit|]. split; [done|]. split; [done|].
  split; [done|]. split; [done|]. split; [done|]. split; [done|].
  split; [done|]. split; [done|]. split; [done|]. split_and!.
  - intros key collection. unfold DiskStore._get_managed_entry. simpl.
    unfold mbind, M_bind. simpl. by rewrite query_closed.
  - intros now now' key collection entry.
    unfold DiskStore._put_managed_entry. simpl.
    unfold mbind, M_bind. simpl. by rewrite execute_closed.
  - intros key collection. unfold DiskStore._delete_managed_entry. simpl.
    unfold mbind, M_bind. simpl. by rewrite execute_closed.
  - unfold DiskStore.__del__. simpl. unfold mbind, M_bind. simpl.
    by rewrite _sqlite_close_closed.
Qed.

End disk_store_life.

Lemma X13_disk_store_closes_its_own_connection_witness :
  let directory := DiskStore.dir_str "/srv/kv" in
  (DiskStore.directory_truthy directory = true
   ∧ (true = true ∨ ¬ missing Posix.boot (DiskStore.to_Path directory)))
  ∧ ∃ self w1 self' w2 conn,
      DiskStore.__init__ Posix.adapter None (Some directory) None None true
        Posix.boot = (Ok self, w1)
      ∧ DiskStore._conn self = Some conn
      ∧ open_on w1 conn ["srv"; "kv"; "store.db"]
      ∧ DiskStore._setup self w1 = (Ok self', w1)
      ∧ DiskStore._exit_stack self' = [DiskStore.close_own_connection]
      ∧ DiskStore.run_callback self' DiskStore.close_own_connection w1
        = (Ok tt, w2)
      ∧ DiskStore.__del__ self' w1 = (Ok tt, w2)
      ∧ closed w2 conn ∧ dirs w2 = dirs w1 ∧ files w2 = files w1
      ∧ (∀ key collection,
           DiskStore._get_managed_entry self' key collection w2
           = (Raise ProgrammingError, w2))
      ∧ (∀ now now' key collection entry,
           DiskStore._put_managed_entry now now' self' key collection entry w2
           = (Raise ProgrammingError, w2))
      ∧ (∀ key collection,
           DiskStore._delete_managed_entry self' key collection w2
           = (Raise ProgrammingError, w2))
      ∧ DiskStore.__del__ self' w2 = (Ok tt, w2).
Proof.
  intros directory.
  assert (H1 : DiskStore.directory_truthy directory = true) by reflexivity.
  assert (H2 : true = true ∨ ¬ missing Posix.boot (DiskStore.to_Path directory))
    by (left; reflexivity).
  split; [done|].
  exact (X13_disk_store_closes_its_own_connection Posix.adapter directory None
           None true Posix.boot H1 H2).
Defined.

Section reopening.
Context `{Platform}.

(** X14 — What a [DiskStore] on a directory has written outlives the
    store: after [__del__] has closed its connection, a new [DiskStore] on
    the same directory, whatever its [auto_create] and [max_size], reads
    under every collection and key what the first store read. *)
Theorem X14_disk_store_data_outlive_the_store adapter directory max_size
    max_size' default_collection default_collection' auto_create auto_create'
    (w : World) now now' key collection entry :
  DiskStore.directory_truthy directory = true →
  auto_create = true ∨ ¬ missing w (DiskStore.to_Path directory) →
  ∃ self w1 w2 w3 self2 w4,
    DiskStore.__init__ adapter None (Some directory) max_size
      default_collection auto_create w = (Ok self, w1)
    ∧ DiskStore._put_managed_entry now now' self key collection entry w1
      = (Ok tt, w2)
    ∧ DiskStore.__del__ self w2 = (Ok tt, w3)
    ∧ DiskStore.__init__ adapter None (Some directory) max_size'
        default_collection' auto_create' w3 = (Ok self2, w4)
    ∧ ∀ key' collection',
        (DiskStore._get_managed_entry self2 key' collection' w4).1
        = (DiskStore._get_managed_entry self key' collection' w2).1.
Proof.
  intros Htrue Hcan.
  destruct (DiskStore_init_directory adapter directory max_size
    default_collection auto_create w Htrue Hcan) as (w0 & Hw0 & Hinit).
  set (dir := DiskStore.to_Path directory) in *.
  set (db := Path_div dir _DB_FILENAME) in *.
  set (w1 := with_connection db w0) in *.
  set (conn := length (conns w)) in *.
  assert (Hopen : open_on w1 conn db).
  { assert (conn = length (conns w0)) as ->
      by (by destruct Hw0 as [[-> _]|[-> _]]).
    apply with_connection_open. }
  assert (Hthere0 : ¬ missing w0 dir).
  { destruct Hw0 as [[-> ?]|[-> _]]; [done|].
    intros [Hdir _]. apply Hdir, with_directory_self. }
  set (self := {| DiskStore._conn := Some conn |}) in *.
  set (t := put_effect now now' max_size (compound_key collection key)
              (dump_json adapter entry key collection) (ttl entry)
              (kv_of w1 db)).
  set (w2 := set_files <[db := t]> w1).
  set (w3 := set_conns (alter close_connection conn) w2).
  assert (Hthere3 : ¬ missing w3 dir).
  { apply (present_set_files_insert w1 dir db t).
    by apply with_connection_present. }
  destruct (DiskStore_init_directory adapter directory max_size'
    default_collection' auto_create' w3 Htrue (or_intror Hthere3))
    as (w0' & [[-> _]|[_ ?]] & Hinit2); [|done].
  eexists self, w1, w2, w3, _, _.
  split; [exact Hinit|].
  split; [by rewrite (DiskStore_put_open _ _ _ _ conn db)|].
  split; [done|]. split; [exact Hinit2|].
  intros key' collection'.
  rewrite (DiskStore_get_open _ _ (length (conns w3)) db);
    [|done|apply with_connection_open].
  rewrite (DiskStore_get_open self w2 conn db) by done.
  rewrite kv_of_with_connection. reflexivity.
Qed.

(** X15 — Where the directory is there, opening succeeds whatever
    [auto_create] is, makes no directory and keeps the rows of every
    database file; this holds of [DiskStore.__init__] and of the default
    connection factory of [MultiDiskStore]. *)
Theorem X15_opening_an_existing_directory adapter directory max_size
    default_collection auto_create (multi : MultiDiskStore.t) collection
    (w : World) :
  DiskStore.directory_truthy directory = true →
  ¬ missing w (DiskStore.to_Path directory) →
  MultiDiskStore._connection_factory multi
    = MultiDiskStore.default_connection_factory →
  ¬ missing w (cache_directory multi collection) →
  (∃ self w' conn,
     DiskStore.__init__ adapter None (Some directory) max_size
       default_collection auto_create w = (Ok self, w')
     ∧ DiskStore._conn self = Some conn
     ∧ open_on w' conn (Path_div (DiskStore.to_Path directory) _DB_FILENAME)
     ∧ dirs w' = dirs w ∧ ∀ q, kv_of w' q = kv_of w q)
  ∧ (∃ conn w',
       MultiDiskStore.call_connection_factory multi collection w = (Ok conn, w')
       ∧ open_on w' conn (database_of multi collection)
       ∧ dirs w' = dirs w ∧ ∀ q, kv_of w' q = kv_of w q).
Proof.
  intros Htrue Hthere Hfactory Hthere'. split.
  - destruct (DiskStore_init_directory adapter directory max_size
      default_collection auto_create w Htrue (or_intror Hthere))
      as (w0 & [[-> _]|[_ ?]] & Hinit); [|done].
    eexists _, _, _. split; [exact Hinit|]. split; [done|].
    split; [apply with_connection_open|]. split; [done|].
    intros q. apply kv_of_with_connection.
  - unfold MultiDiskStore.call_connection_factory.
    rewrite Hfactory, default_factory_opens by done.
    eexists _, _. split; [done|]. split; [apply with_connection_open|].
    split; [done|]. intros q. apply kv_of_with_connection.
Qed.

End reopening.

Lemma X14_disk_store_data_outlive_the_store_witness :
  let directory := DiskStore.dir_str "/srv/kv" in
  (DiskStore.directory_truthy directory = true
   ∧ (true = true ∨ ¬ missing Posix.boot (DiskStore.to_Path directory)))
  ∧ ∃ self w1 w2 w3 self2 w4,
      DiskStore.__init__ Posix.adapter None (Some directory) None None true
        Posix.boot = (Ok self, w1)
      ∧ DiskStore._put_managed_entry 5 6 self "k" "c" (Posix.entry "v" None) w1
        = (Ok tt, w2)
      ∧ DiskStore.__del__ self w2 = (Ok tt, w3)
      ∧ DiskStore.__init__ Posix.adapter None (Some directory) (Some 100) None
          false w3 = (Ok self2, w4)
      ∧ ∀ key' collection',
          (DiskStore._get_managed_entry self2 key' collection' w4).1
          = (DiskStore._get_managed_entry self key' collection' w2).1.
Proof.
  intros directory.
  assert (H1 : DiskStore.directory_truthy directory = true) by reflexivity.
  assert (H2 : true = true ∨ ¬ missing Posix.boot (DiskStore.to_Path directory))
    by (left; reflexivity).
  split; [done|].
  exact (X14_disk_store_data_outlive_the_store Posix.adapter directory None
           (Some 100) None None true false Posix.boot 5 6 "k" "c"
           (Posix.entry "v" None) H1 H2).
Defined.

Lemma X15_opening_an_existing_directory_witness :
  let directory := DiskStore.dir_str "/data" in
  let multi := Posix.multi_store None in
  let w := Posix.world_with [] in
  (DiskStore.directory_truthy directory = true
   ∧ ¬ missing w (DiskStore.to_Path directory)
   ∧ MultiDiskStore._connection_factory multi
     = MultiDiskStore.default_connection_factory
   ∧ ¬ missing w (cache_directory multi "data"))
  ∧ ∃ self w' conn,
      DiskStore.__init__ Posix.adapter None (Some directory) None None false w
        = (Ok self, w')
      ∧ DiskStore._conn self = Some conn
      ∧ open_on w' conn (Path_div (DiskStore.to_Path directory) _DB_FILENAME)
      ∧ dirs w' = dirs w ∧ ∀ q, kv_of w' q = kv_of w q.
Proof.
  intros directory multi w.
  assert (H1 : DiskStore.directory_truthy directory = true) by reflexivity.
  assert (H2 : ¬ missing w (DiskStore.to_Path directory)).
  { intros [Hdir _]. apply Hdir. compute_done. }
  assert (H3 : MultiDiskStore._connection_factory multi
               = MultiDiskStore.default_connection_factory) by reflexivity.
  assert (H4 : ¬ missing w (cache_directory multi "data")).
  { intros [Hdir _]. apply Hdir. compute_done. }
  split; [done|].
  exact (proj1 (X15_opening_an_existing_directory Posix.adapter directory None
                  None false multi "data" w H1 H2 H3 H4)).
Defined.

(** * Further properties of [MultiDiskStore] *)

Lemma MultiDiskStore_put_open now now' (self : MultiDiskStore.t) (w : World)
    conn p key collection entry :
  MultiDiskStore._conn self !! collection = Some conn → open_on w conn p →
  MultiDiskStore._put_managed_entry now now' self key collection entry w
  = (Ok tt,
     set_files <[p := put_effect now now' (MultiDiskStore._max_size self) key
                        (dump_json (MultiDiskStore._serialization_adapter self)
                           entry key collection)
                        (ttl entry) (kv_of w p)]> w).
Proof.
  intros Hconn Hopen.
  unfold MultiDiskStore._put_managed_entry, MultiDiskStore.get_conn, put_effect.
  rewrite Hconn. unfold mbind, M_bind, mret, M_ret.
  rewrite (execute_open _ _ p) by done. simpl.
  destruct (MultiDiskStore._max_size self) as [max_size|]; [|done].
  case_bool_decide; [|done].
  rewrite (execute_open _ _ p) by done. simpl.
  by rewrite kv_of_insert, set_files_insert_insert.
Qed.

Lemma MultiDiskStore_delete_open (self : MultiDiskStore.t) (w : World) conn p
    key collection :
  MultiDiskStore._conn self !! collection = Some conn → open_on w conn p →
  MultiDiskStore._delete_managed_entry self key collection w
  = (Ok (_sqlite_delete (kv_of w p) key).1,
     set_files <[p := (_sqlite_delete (kv_of w p) key).2]> w).
Proof.
  intros Hconn Hopen.
  unfold MultiDiskStore._delete_managed_entry, MultiDiskStore.get_conn.
  rewrite Hconn. unfold mbind, M_bind, mret, M_ret.
  by rewrite (execute_open _ _ p).
Qed.

(** X16 — Collections of a [MultiDiskStore] whose connections are open on
    different database files do not touch each other: a put under one
    collection, with its eviction pass, and a delete under it leave the
    table of the other file and the reads of the other collection as they
    were. *)
Theorem X16_multi_store_collections_are_separate `{Platform} now now'
    (self : MultiDiskStore.t) (w : World) c1 c2 h1 h2 p1 p2 key entry :
  MultiDiskStore._conn self !! c1 = Some h1 → open_on w h1 p1 →
  MultiDiskStore._conn self !! c2 = Some h2 → open_on w h2 p2 →
  p1 ≠ p2 →
  (∃ w',
     MultiDiskStore._put_managed_entry now now' self key c1 entry w = (Ok tt, w')
     ∧ kv_of w' p2 = kv_of w p2
     ∧ ∀ key', (MultiDiskStore._get_managed_entry self key' c2 w').1
               = (MultiDiskStore._get_managed_entry self key' c2 w).1)
  ∧ (∃ deleted w',
       MultiDiskStore._delete_managed_entry self key c1 w = (Ok deleted, w')
       ∧ kv_of w' p2 = kv_of w p2
       ∧ ∀ key', (MultiDiskStore._get_managed_entry self key' c2 w').1
                 = (MultiDiskStore._get_managed_entry self key' c2 w).1).
Proof.
  intros Hc1 Ho1 Hc2 Ho2 Hne. split.
  - eexists. rewrite (MultiDiskStore_put_open _ _ _ _ h1 p1) by done.
    split; [done|]. split; [by apply kv_of_insert_ne|]. intros key'.
    rewrite !(MultiDiskStore_get_open _ _ h2 p2) by done.
    simpl. by rewrite kv_of_insert_ne.
  - eexists _, _. rewrite (MultiDiskStore_delete_open _ _ h1 p1) by done.
    split; [done|]. split; [by apply kv_of_insert_ne|]. intros key'.
    rewrite !(MultiDiskStore_get_open _ _ h2 p2) by done.
    simpl. by rewrite kv_of_insert_ne.
Qed.

Lemma X16_multi_store_collections_are_separate_witness :
  let self := Posix.multi_store2 (Some 8) in
  let w := Posix.world_with2 [] [kv.Row 1 "k" "kept" None] in
  (MultiDiskStore._conn self !! "c" = Some 0%nat ∧ open_on w 0%nat Posix.db
   ∧ MultiDiskStore._conn self !! "d" = Some 1%nat ∧ open_on w 1%nat Posix.db2
   ∧ Posix.db ≠ Posix.db2)
  ∧ ∃ w',
      MultiDiskStore._put_managed_entry 5 6 self "k" "c" (Posix.entry "v" None) w
        = (Ok tt, w')
      ∧ kv_of w' Posix.db2 = kv_of w Posix.db2
      ∧ ∀ key', (MultiDiskStore._get_managed_entry self key' "d" w').1
                = (MultiDiskStore._get_managed_entry self key' "d" w).1.
Proof.
  intros self w.
  assert (H1 : MultiDiskStore._conn self !! "c" = Some 0%nat) by reflexivity.
  assert (H2 : open_on w 0%nat Posix.db) by reflexivity.
  assert (H3 : MultiDiskStore._conn self !! "d" = Some 1%nat) by reflexivity.
  assert (H4 : open_on w 1%nat Posix.db2) by reflexivity.
  assert (H5 : Posix.db ≠ Posix.db2) by discriminate.
  split; [done|].
  exact (proj1 (X16_multi_store_collections_are_separate 5 6 self w "c" "d"
                  0%nat 1%nat Posix.db Posix.db2 "k" (Posix.entry "v" None)
                  H1 H2 H3 H4 H5)).
Defined.

(** X17 — What [MultiDiskStore._put_managed_entry] writes under a
    collection is read back under the plain key by
    [MultiDiskStore._get_managed_entry] through every collection whose
    connection is open on the same database file: the collection itself,
    and any other collection that shares the file.  This holds where no
    positive bound is configured, or where the row fits the bound by itself
    and is not expired when the eviction pass runs. *)
Theorem X17_multi_store_put_then_get `{Platform} now now'
    (self : MultiDiskStore.t) (w : World) c1 c2 h1 h2 p key entry :
  MultiDiskStore._conn self !! c1 = Some h1 → open_on w h1 p →
  MultiDiskStore._conn self !! c2 = Some h2 → open_on w h2 p →
  kv_wf (kv_of w p) →
  (∀ m, MultiDiskStore._max_size self = Some m → m > 0 →
        LENGTH key
        + LENGTH (dump_json (MultiDiskStore._serialization_adapter self)
                    entry key c1) ≤ m
        ∧ ∀ e, ttl entry = Some e → now' ≤ now + e) →
  ∃ w',
    MultiDiskStore._put_managed_entry now now' self key c1 entry w = (Ok tt, w')
    ∧ MultiDiskStore._get_managed_entry self key c2 w'
      = (entry_of_row (MultiDiskStore._serialization_adapter self)
           (Some (dump_json (MultiDiskStore._serialization_adapter self)
                    entry key c1),
            (λ e, now + e) <$> ttl entry), w').
Proof.
  intros Hc1 Ho1 Hc2 Ho2 Hwf Hfits. eexists.
  rewrite (MultiDiskStore_put_open _ _ _ _ h1 p) by done. split; [done|].
  rewrite (MultiDiskStore_get_open _ _ h2 p) by done.
  by rewrite kv_of_insert, put_effect_get.
Qed.

Lemma X17_multi_store_put_then_get_witness :
  let self := Posix.multi_store2 (Some 8) in
  let w := Posix.world_with2 [kv.Row 1 "j" "old" None] [] in
  let entry := Posix.entry "v1" None in
  (MultiDiskStore._conn self !! "c" = Some 0%nat ∧ open_on w 0%nat Posix.db
   ∧ MultiDiskStore._conn self !! "c/" = Some 2%nat ∧ open_on w 2%nat Posix.db
   ∧ kv_wf (kv_of w Posix.db)
   ∧ (∀ m, MultiDiskStore._max_size self = Some m → m > 0 →
        LENGTH "k"
        + LENGTH (dump_json (MultiDiskStore._serialization_adapter self)
                    entry "k" "c") ≤ m
        ∧ ∀ e, ttl entry = Some e → 6 ≤ 5 + e))
  ∧ ∃ w',
      MultiDiskStore._put_managed_entry 5 6 self "k" "c" entry w = (Ok tt, w')
      ∧ MultiDiskStore._get_managed_entry self "k" "c/" w'
        = (entry_of_row Posix.adapter (Some "v1", None), w').
Proof.
  intros self w entry.
  assert (H1 : MultiDiskStore._conn self !! "c" = Some 0%nat) by reflexivity.
  assert (H2 : open_on w 0%nat Posix.db) by reflexivity.
  assert (H3 : MultiDiskStore._conn self !! "c/" = Some 2%nat) by reflexivity.
  assert (H4 : open_on w 2%nat Posix.db) by reflexivity.
  assert (H5 : kv_wf (kv_of w Posix.db)) by compute_done.
  assert (H6 : ∀ m, MultiDiskStore._max_size self = Some m → m > 0 →
        LENGTH "k"
        + LENGTH (dump_json (MultiDiskStore._serialization_adapter self)
                    entry "k" "c") ≤ m
        ∧ ∀ e, ttl entry = Some e → 6 ≤ 5 + e).
  { intros m [= <-] _. split; [by vm_compute|]. by intros e [=]. }
  split; [done|].
  exact (X17_multi_store_put_then_get 5 6 self w "c" "c/" 0%nat 2%nat Posix.db
           "k" entry H1 H2 H3 H4 H5 H6).
Defined.

Lemma World_eq (w w' : World) :
  dirs w = dirs w' → files w = files w' → conns w = conns w' → w = w'.
Proof. destruct w, w'. simpl. by intros -> -> ->. Qed.

(** X18 — Closing twice is closing once: after [_sync_close] has closed the
    connections of a [MultiDiskStore], [__del__], which closes them again,
    raises nothing and leaves the world as it is; directories and database
    files are not touched by either. *)
Theorem X18_multi_store_closes_twice (self : MultiDiskStore.t) (w : World) :
  ∃ w',
    MultiDiskStore._sync_close self w = (Ok tt, w')
    ∧ MultiDiskStore.__del__ self w' = (Ok tt, w')
    ∧ dirs w' = dirs w ∧ files w' = files w.
Proof.
  unfold MultiDiskStore.__del__, MultiDiskStore._sync_close.
  set (l := (map_to_list (MultiDiskStore._conn self)).*2).
  destruct (close_each l w) as (w' & Hrun & Hdirs & Hfiles & Hconns).
  destruct (close_each l w') as (w'' & Hrun' & Hdirs' & Hfiles' & Hconns').
  exists w'. split; [done|]. split; [|done].
  rewrite Hrun'. f_equal. apply World_eq; [done..|].
  apply list_eq. intros i. rewrite Hconns', Hconns.
  case_decide; [|done]. by destruct (conns w !! i).
Qed.

(** * Edges *)

Section edges.
Context `{Platform}.

(** X19 — An empty string for [directory] passes the checks of
    [DiskStore.__init__], the string being false and not [None]: the
    constructor raises nothing, opens no connection and makes no directory,
    and the store it returns has no [_conn].  A read, a write and a delete
    through that store raise [AttributeError]; [__del__] does nothing. *)
Theorem X19_disk_store_of_an_empty_directory_string adapter max_size
    default_collection auto_create (w : World) :
  ∃ self,
    DiskStore.__init__ adapter None (Some (DiskStore.dir_str "")) max_size
      default_collection auto_create w = (Ok self, w)
    ∧ DiskStore._conn self = None
    ∧ (∀ key collection w',
         DiskStore._get_managed_entry self key collection w'
         = (Raise (AttributeError "_conn"), w'))
    ∧ (∀ now now' key collection entry w',
         DiskStore._put_managed_entry now now' self key collection entry w'
         = (Raise (AttributeError "_conn"), w'))
    ∧ (∀ key collection w',
         DiskStore._delete_managed_entry self key collection w'
         = (Raise (AttributeError "_conn"), w'))
    ∧ ∀ w', DiskStore.__del__ self w' = (Ok tt, w').
Proof.
  eexists. unfold DiskStore.__init__.
  rewrite bool_decide_false by (by intros [[? [=]] _]).
  rewrite bool_decide_false by (by intros [_ [=]]).
  simpl. by split_and!.
Qed.

(** X20 — A [MultiDiskStore] opens nothing by itself on a read, a write or
    a delete: for a collection that [_setup_collection] has not registered,
    each raises [KeyError] and the world stays as it is. *)
Theorem X20_multi_store_unknown_collection (self : MultiDiskStore.t)
    collection (w : World) :
  MultiDiskStore._conn self !! collection = None →
  (∀ key, MultiDiskStore._get_managed_entry self key collection w
          = (Raise (KeyError collection), w))
  ∧ (∀ now now' key entry,
       MultiDiskStore._put_managed_entry now now' self key collection entry w
       = (Raise (KeyError collection), w))
  ∧ (∀ key, MultiDiskStore._delete_managed_entry self key collection w
            = (Raise (KeyError collection), w)).
Proof.
  intros Hnone.
  unfold MultiDiskStore._get_managed_entry, MultiDiskStore._put_managed_entry,
    MultiDiskStore._delete_managed_entry, MultiDiskStore.get_conn.
  rewrite Hnone. by split_and!.
Qed.

(** X21 — A collection that [_setup_collection] opens through the default
    factory where no database file is yet starts empty: the store holds a
    new open connection under the collection name, every read under that
    collection returns [None], and the connections held under the other
    names are as before. *)
Theorem X21_multi_store_new_collection_is_empty (self : MultiDiskStore.t)
    collection (w : World) :
  MultiDiskStore._connection_factory self
    = MultiDiskStore.default_connection_factory →
  MultiDiskStore._auto_create self = true →
  files w !! database_of self collection = None →
  ∃ self' w' conn,
    MultiDiskStore._setup_collection self collection w = (Ok self', w')
    ∧ MultiDiskStore._conn self' !! collection = Some conn
    ∧ conns w !! conn = None
    ∧ open_on w' conn (database_of self collection)
    ∧ kv_of w' (database_of self collection) = []
    ∧ (∀ key, MultiDiskStore._get_managed_entry self' key collection w'
              = (Ok None, w'))
    ∧ ∀ collection', collection' ≠ collection →
        MultiDiskStore._conn self' !! collection'
        = MultiDiskStore._conn self !! collection'.
Proof.
  intros Hfactory Hauto Hnew.
  assert (∃ w0, conns w0 = conns w ∧ files w0 = files w
    ∧ MultiDiskStore.default_connection_factory_body self collection w
      = (Ok (length (conns w)),
         with_connection (database_of self collection) w0))
    as (w0 & Hconns & Hfiles & Hrun).
  { destruct (decide (missing w (cache_directory self collection))).
    - exists (with_directory (cache_directory self collection) w).
      by rewrite default_factory_creates.
    - exists w. by rewrite default_factory_opens. }
  set (db := database_of self collection) in *.
  assert (Hopen : open_on (with_connection db w0) (length (conns w)) db).
  { rewrite <-Hconns. apply with_connection_open. }
  assert (Hempty : kv_of (with_connection db w0) db = []).
  { rewrite kv_of_with_connection. unfold kv_of. by rewrite Hfiles, Hnew. }
  eexists _, _, _. split.
  { unfold MultiDiskStore._setup_collection,
      MultiDiskStore.call_connection_factory, mbind, M_bind.
    by rewrite Hfactory, Hrun. }
  split; [by simpl; rewrite lookup_insert_eq|].
  split; [by apply lookup_ge_None_2|]. split; [done|]. split; [done|]. split.
  - intros key.
    rewrite (MultiDiskStore_get_open _ _ (length (conns w)) db);
      [|by simpl; rewrite lookup_insert_eq|done].
    by rewrite Hempty.
  - intros collection' Hne. simpl. by rewrite lookup_insert_ne.
Qed.

End edges.

Lemma X20_multi_store_unknown_collection_witness :
  MultiDiskStore._conn (Posix.multi_store None) !! "other" = None
  ∧ ∀ key, MultiDiskStore._get_managed_entry (Posix.multi_store None) key
             "other" Posix.boot
           = (Raise (KeyError "other"), Posix.boot).
Proof.
  assert (H1 : MultiDiskStore._conn (Posix.multi_store None) !! "other" = None)
    by reflexivity.
  split; [exact H1|].
  exact (proj1 (X20_multi_store_unknown_collection (Posix.multi_store None)
                  "other" Posix.boot H1)).
Defined.

Lemma X21_multi_store_new_collection_is_empty_witness :
  (MultiDiskStore._connection_factory Posix.router
     = MultiDiskStore.default_connection_factory
   ∧ MultiDiskStore._auto_create Posix.router = true
   ∧ files Posix.boot !! database_of Posix.router "c" = None)
  ∧ ∃ self' w' conn,
      MultiDiskStore._setup_collection Posix.router "c" Posix.boot
        = (Ok self', w')
      ∧ MultiDiskStore._conn self' !! "c" = Some conn
      ∧ conns Posix.boot !! conn = None
      ∧ open_on w' conn ["base"; "c"; "store.db"]
      ∧ kv_of w' ["base"; "c"; "store.db"] = []
      ∧ (∀ key, MultiDiskStore._get_managed_entry self' key "c" w'
                = (Ok None, w'))
      ∧ ∀ collection', collection' ≠ "c" →
          MultiDiskStore._conn self' !! collection'
          = MultiDiskStore._conn Posix.router !! collection'.
Proof.
  assert (H1 : MultiDiskStore._connection_factory Posix.router
               = MultiDiskStore.default_connection_factory) by reflexivity.
  assert (H2 : MultiDiskStore._auto_create Posix.router = true) by reflexivity.
  assert (H3 : files Posix.boot !! database_of Posix.router "c" = None)
    by reflexivity.
  split; [done|].
  exact (X21_multi_store_new_collection_is_empty Posix.router "c" Posix.boot
           H1 H2 H3).
Defined.

(** ** The last batch *)

Lemma proportional_trim_last_batch size bound (t : table) :
  Spec.proportional_trim_by size bound t = t
  ∨ ∃ t', t' `suffix_of` t ∧ size t' > bound
          ∧ Spec.proportional_trim_by size bound t = Spec.delete_oldest t'.
Proof.
  remember (length t) as m eqn:Hm. revert t Hm.
  induction (lt_wf m) as [m _ IH]. intros t ->.
  rewrite proportional_trim_eq. case_decide as Hgo; [|by left]. right.
  destruct Hgo as [Hbig Hrows].
  destruct (IH (length (Spec.delete_oldest t))) with (t := Spec.delete_oldest t)
    as [->|(t' & Hsuf & Hbig' & ->)]; [|done| |].
  - unfold Spec.delete_oldest, Spec.batch. rewrite length_drop.
    destruct t; [done|]. simpl. lia.
  - by exists t.
  - exists t'. split; [|done]. etrans; [done|]. apply suffix_drop.
Qed.

(** X22 — [_sqlite_evict] trims no table that is within the bound: on a
    table in rowid order, either nothing but the expired rows is deleted, or
    the last batch deleted was taken from the old end of a table whose size
    exceeded the bound, and so did the sum of its character lengths. *)
Theorem X22_evict_stops_at_the_bound now (conn : table) max_size :
  kv_wf conn →
  _sqlite_evict now conn max_size = DELETE_WHERE (expired now) conn
  ∨ ∃ t, t `suffix_of` DELETE_WHERE (expired now) conn
         ∧ approximate_size t > max_size
         ∧ _sqlite_evict now conn max_size
           = drop (Nat.max 1 (length t `div` 10)) t.
Proof.
  intros Hwf. unfold _sqlite_evict.
  rewrite trim_loop_proportional_trim
    by (eapply kv_wf_sublist; [apply DELETE_WHERE_sublist|done]).
  destruct (proportional_trim_last_batch SUM_LENGTH max_size
    (DELETE_WHERE (expired now) conn)) as [->|(t & Hsuf & Hbig & ->)];
    [by left|right].
  exists t. pose proof (SUM_LENGTH_bounds t). split_and!; [done|lia|done].
Qed.

Lemma X22_evict_stops_at_the_bound_witness :
  let conn := [kv.Row 1 "a" "xx" (Some 50); kv.Row 2 "b" "yyyy" None;
               kv.Row 4 "c" "z" None; kv.Row 7 "d" "ww" None] in
  kv_wf conn
  ∧ (_sqlite_evict 100 conn 6 = DELETE_WHERE (expired 100) conn
     ∨ ∃ t, t `suffix_of` DELETE_WHERE (expired 100) conn
            ∧ approximate_size t > 6
            ∧ _sqlite_evict 100 conn 6
              = drop (Nat.max 1 (length t `div` 10)) t).
Proof.
  intros conn. assert (H1 : kv_wf conn) by compute_done.
  split; [exact H1|]. exact (X22_evict_stops_at_the_bound 100 conn 6 H1).
Defined.

(** ** The size bound as SQLite measures it *)

(** X23 — With a positive bound configured, [DiskStore._put_managed_entry]
    leaves the table of its database within the bound when each key and
    each value counts up to its first NUL character, which is how
    [LENGTH] counts; where no text left in the table holds a NUL character,
    the sum of the character lengths is within the bound. *)
Theorem X23_disk_store_put_within_measured_bound now now' (self : DiskStore.t)
    (w : World) conn p key collection entry max_size :
  DiskStore._conn self = Some conn → open_on w conn p →
  DiskStore._max_size self = Some max_size → max_size > 0 →
  ∃ w',
    DiskStore._put_managed_entry now now' self key collection entry w
      = (Ok tt, w')
    ∧ size_up_to_NUL (kv_of w' p) ≤ max_size
    ∧ (NUL_free_table (kv_of w' p) → approximate_size (kv_of w' p) ≤ max_size).
Proof.
  intros Hconn Hopen Hmax Hpos.
  destruct (DiskStore_put_within_bound now now' self w conn p key collection
    entry max_size Hconn Hopen Hmax Hpos) as (w' & Hput & Hsize).
  exists w'. split; [done|]. split.
  - by rewrite <-SUM_LENGTH_size_up_to_NUL.
  - intros Hfree. by rewrite <-SUM_LENGTH_NUL_free.
Qed.

Lemma X23_disk_store_put_within_measured_bound_witness :
  let self := Posix.disk_store (Some 8) in
  let w := Posix.world_with [NUL_row] in
  (DiskStore._conn self = Some 0%nat ∧ open_on w 0%nat Posix.db
   ∧ DiskStore._max_size self = Some 8 ∧ 8 > 0)
  ∧ ∃ w',
      DiskStore._put_managed_entry 5 6 self "k" "A" (Posix.entry "v1" None) w
        = (Ok tt, w')
      ∧ size_up_to_NUL (kv_of w' Posix.db) ≤ 8
      ∧ (NUL_free_table (kv_of w' Posix.db) →
         approximate_size (kv_of w' Posix.db) ≤ 8).
Proof.
  intros self w.
  assert (H1 : DiskStore._conn self = Some 0%nat) by reflexivity.
  assert (H2 : open_on w 0%nat Posix.db) by reflexivity.
  assert (H3 : DiskStore._max_size self = Some 8) by reflexivity.
  assert (H4 : 8 > 0) by lia.
  split; [done|].
  exact (X23_disk_store_put_within_measured_bound 5 6 self w 0%nat Posix.db
           "k" "A" (Posix.entry "v1" None) 8 H1 H2 H3 H4).
Defined.

(** X24 — Likewise [MultiDiskStore._put_managed_entry], for the table of
    the database of the collection. *)
Theorem X24_multi_store_put_within_measured_bound now now'
    (self : MultiDiskStore.t) (w : World) collection conn p key entry max_size :
  MultiDiskStore._conn self !! collection = Some conn → open_on w conn p →
  MultiDiskStore._max_size self = Some max_size → max_size > 0 →
  ∃ w',
    MultiDiskStore._put_managed_entry now now' self key collection entry w
      = (Ok tt, w')
    ∧ size_up_to_NUL (kv_of w' p) ≤ max_size
    ∧ (NUL_free_table (kv_of w' p) → approximate_size (kv_of w' p) ≤ max_size).
Proof.
  intros Hconn Hopen Hmax Hpos. eexists.
  rewrite (MultiDiskStore_put_open _ _ _ _ conn p) by done. split; [done|].
  rewrite kv_of_insert, Hmax.
  pose proof (put_effect_within_bound now now' max_size key
    (dump_json (MultiDiskStore._serialization_adapter self) entry key collection)
    (ttl entry) (kv_of w p) Hpos) as Hsize.
  split.
  - by rewrite <-SUM_LENGTH_size_up_to_NUL.
  - intros Hfree. by rewrite <-SUM_LENGTH_NUL_free.
Qed.

Lemma X24_multi_store_put_within_measured_bound_witness :
  let self := Posix.multi_store (Some 4) in
  let w := Posix.world_with [NUL_row] in
  (MultiDiskStore._conn self !! "c" = Some 0%nat ∧ open_on w 0%nat Posix.db
   ∧ MultiDiskStore._max_size self = Some 4 ∧ 4 > 0)
  ∧ ∃ w',
      MultiDiskStore._put_managed_entry 5 6 self "j" "c" (Posix.entry "v1" None) w
        = (Ok tt, w')
      ∧ size_up_to_NUL (kv_of w' Posix.db) ≤ 4
      ∧ (NUL_free_table (kv_of w' Posix.db) →
         approximate_size (kv_of w' Posix.db) ≤ 4).
Proof.
  intros self w.
  assert (H1 : MultiDiskStore._conn self !! "c" = Some 0%nat) by reflexivity.
  assert (H2 : open_on w 0%nat Posix.db) by reflexivity.
  assert (H3 : MultiDiskStore._max_size self = Some 4) by reflexivity.
  assert (H4 : 4 > 0) by lia.
  split; [done|].
  exact (X24_multi_store_put_within_measured_bound 5 6 self w "c" 0%nat Posix.db
           "j" (Posix.entry "v1" None) 4 H1 H2 H3 H4).
Defined.

(** X25 — On every table in rowid order, [_sqlite_evict] is the expire
    sweep followed by the proportional trim, the size being the one in
    which each key and each value counts up to its first NUL character. *)
Theorem X25_evict_is_sweep_then_trim now (conn : table) max_size :
  kv_wf conn →
  _sqlite_evict now conn max_size
  = Spec.evict_by size_up_to_NUL now max_size conn.
Proof.
  intros Hwf. rewrite _sqlite_evict_evict_by by done.
  unfold Spec.evict_by. apply proportional_trim_by_ext.
  intros k. apply SUM_LENGTH_size_up_to_NUL.
Qed.

Lemma X25_evict_is_sweep_then_trim_witness :
  let conn := [kv.Row 1 "a" "xx" (Some 50); NUL_row_at 2;
               kv.Row 4 "c" "zzz" None; kv.Row 7 "d" "ww" None] in
  kv_wf conn
  ∧ _sqlite_evict 100 conn 9 = Spec.evict_by size_up_to_NUL 100 9 conn
  ∧ _sqlite_evict 100 conn 9 = [NUL_row_at 2; kv.Row 4 "c" "zzz" None;
                                  kv.Row 7 "d" "ww" None].
Proof.
  intros conn. assert (H1 : kv_wf conn) by compute_done.
  split; [exact H1|]. split; [|reflexivity].
  exact (X25_evict_is_sweep_then_trim 100 conn 9 H1).
Defined.

(** ** Timestamps that no [datetime] represents *)

(** X26 — A read does not catch what [datetime.fromtimestamp] raises: for a
    stored row whose [expire_at] is not zero and is refused by
    [fromtimestamp], [DiskStore._get_managed_entry] raises that exception,
    although the text of the row loads, and leaves the world as it is. *)
Theorem X26_read_of_a_timestamp_out_of_range `{Platform} (self : DiskStore.t)
    (w : World) conn p key collection r e x m :
  DiskStore._conn self = Some conn → open_on w conn p →
  kv_wf (kv_of w p) → r ∈ kv_of w p →
  kv.key r = compound_key collection key →
  kv.expire_at r = Some e → e ≠ 0 → fromtimestamp e = Raise x →
  load_json (DiskStore._serialization_adapter self) (kv.value r) = Ok m →
  DiskStore._get_managed_entry self key collection w = (Raise x, w).
Proof.
  intros Hconn Hopen Hwf Hr Hkey Hexp He Hx Hload.
  rewrite (DiskStore_get_open _ _ conn p), <-Hkey by done.
  rewrite get_row, Hexp by done. simpl.
  by rewrite Hload, bool_decide_true, Hx.
Qed.

Lemma X26_read_of_a_timestamp_out_of_range_witness :
  let r := kv.Row 1 "c::k" "v" (Some 253402300800) in
  let w := Posix.world_with [r] in
  DiskStore._get_managed_entry (Posix.disk_store None) "k" "c" w
  = (Raise (ValueError "year is out of range"), w).
Proof.
  intros r w.
  refine (X26_read_of_a_timestamp_out_of_range (H:=Posix.platform)
    (Posix.disk_store None) w 0%nat Posix.db "k" "c" r 253402300800
    (ValueError "year is out of range") (Posix.entry "v" None)
    _ _ _ _ _ _ _ _ _);
    [reflexivity|reflexivity|compute_done|compute_done|reflexivity
    |reflexivity|lia|reflexivity|reflexivity].
Defined.
